(** * Tool registration and category filtering of the DigitalOcean MCP server

    A shallow embedding of package [registry] (the service catalog, the
    filter parser [parseServiceFilters], the resolver [hasCategory], the
    per-service registration functions and the driver [Register]) together
    with the properties of the registration engine.

    Conventions of the embedding:
    - a Go [string] is a [string] (a sequence of bytes);
    - a Go [map[string][]string] is a [gmap string (list string)];
    - a Go [error] is an [option string]: [None] is [nil], [Some msg] is an
      error whose message is [msg];
    - a [*server.MCPServer] is the sequence of tool sets handed to
      [AddTools] so far (each constructor's [Tools()] is one [ToolSet]);
    - what the source leaves open (the order in which [range] visits a map,
      the outcome of the one fallible tool constructor) is collected in an
      environment [Env], over which every statement quantifies;
    - the calls of the logger change neither the server nor the result and
      are left out. *)

From Stdlib Require Import ZArith Ascii String List Permutation Lia.
From stdpp Require Import base option list strings gmap fin_maps.

Open Scope string_scope.
Open Scope list_scope.

(** ** Go strings *)

Module GoStrings.

(** [strings.Index(s, sep)] for a one-byte separator: the index of the first
    occurrence of [sep] in [s], or [-1]. *)
Fixpoint Index (s : string) (sep : ascii) : Z :=
  match s with
  | EmptyString => (-1)%Z
  | String a r =>
      if Ascii.eqb a sep then 0%Z
      else let i := Index r sep in if (i =? -1)%Z then (-1)%Z else (i + 1)%Z
  end.

(** The slice [s[:n]]. *)
Fixpoint slice_to (s : string) (n : nat) {struct n} : string :=
  match n with
  | O => EmptyString
  | S k =>
      match s with
      | EmptyString => EmptyString
      | String a r => String a (slice_to r k)
      end
  end.

(** The slice [s[n:]]. *)
Fixpoint slice_from (s : string) (n : nat) {struct n} : string :=
  match n with
  | O => s
  | S k =>
      match s with
      | EmptyString => EmptyString
      | String _ r => slice_from r k
      end
  end.

(** [strings.Join(elems, sep)]. *)
Fixpoint Join (elems : list string) (sep : string) : string :=
  match elems with
  | [] => EmptyString
  | [x] => x
  | x :: rest => x +:+ sep +:+ Join rest sep
  end.

(** [strings.Contains(s, t)] as a proposition. *)
Definition Contains (s t : string) : Prop :=
  exists pre post, s = pre +:+ t +:+ post.

End GoStrings.
Import GoStrings.

(** The separator between a service and a category. *)
Definition colon : ascii := ":"%char.

(** A string without the separator. *)
Definition no_colon (s : string) : Prop := Index s colon = (-1)%Z.

(** ** The filter parser *)

(** One iteration of the loop of [parseServiceFilters]. *)
Definition parseStep (result : gmap string (list string)) (svc : string)
  : gmap string (list string) :=
  let idx := Index svc colon in
  if negb (idx =? -1)%Z then
    let serviceName := slice_to svc (Z.to_nat idx) in
    let category := slice_from svc (Z.to_nat (idx + 1)%Z) in
    if negb (String.eqb category "") then
      <[serviceName := default [] (result !! serviceName) ++ [category]]> result
    else result
  else
    match result !! svc with
    | Some _ => result
    | None => <[svc := ["basic"]]> result
    end.

Definition parseServiceFilters (services : list string)
  : gmap string (list string) :=
  foldl parseStep ∅ services.

(** *** The parser with the run-time checks of Go

    A slice expression whose bound exceeds the length of the string panics;
    [None] stands for the panic. *)

Definition slice_to_checked (s : string) (n : Z) : option string :=
  if ((0 <=? n) && (n <=? Z.of_nat (String.length s)))%Z
  then Some (slice_to s (Z.to_nat n)) else None.

Definition slice_from_checked (s : string) (n : Z) : option string :=
  if ((0 <=? n) && (n <=? Z.of_nat (String.length s)))%Z
  then Some (slice_from s (Z.to_nat n)) else None.

Definition parseStepChecked (result : gmap string (list string))
    (svc : string) : option (gmap string (list string)) :=
  let idx := Index svc colon in
  if negb (idx =? -1)%Z then
    serviceName ← slice_to_checked svc idx;
    category ← slice_from_checked svc (idx + 1)%Z;
    if negb (String.eqb category "") then
      Some (<[serviceName :=
                default [] (result !! serviceName) ++ [category]]> result)
    else Some result
  else
    match result !! svc with
    | Some _ => Some result
    | None => Some (<[svc := ["basic"]]> result)
    end.

Fixpoint parseLoopChecked (result : gmap string (list string))
    (services : list string) : option (gmap string (list string)) :=
  match services with
  | [] => Some result
  | svc :: rest =>
      result' ← parseStepChecked result svc; parseLoopChecked result' rest
  end.

Definition parseServiceFiltersChecked (services : list string)
  : option (gmap string (list string)) :=
  parseLoopChecked ∅ services.

(** ** The category resolver *)

Fixpoint hasCategory (categories : list string) (cat : string) : bool :=
  match categories with
  | [] => false
  | c :: rest =>
      if String.eqb c cat || String.eqb c "all" then true
      else hasCategory rest cat
  end.

(** ** The serving surface *)

(** One constructor of a tool package per [ToolSet]; [s.AddTools(X.Tools()...)]
    hands the tool set [X] to the server. *)
Inductive ToolSet : Type :=
  | AppPlatformTool
  | RegionTools
  | DropletTool | DropletActionsTool | ImageTool | ImageActionsTool | SizesTool
  | LoadBalancersTool | NetFirewallTool | DomainsTool | CertificateTool
  | VPCTool | VPCPeeringTool | ReservedIPTool | BYOIPPrefixTool
  | AccountTools | BalanceTools | BillingTools | InvoiceTools | KeysTool
  | ActionTools
  | SpacesKeysTool | CDNTool
  | OneClickTool
  | UptimeTool | UptimeCheckAlertTool | AlertPolicyTool
  | DoksTool
  | ClusterTool | PostgreSQLTool | MysqlTool | MongoTool | RedisTool
  | KafkaTool | OpenSearchTool | UserTool | DbFirewallTool.

#[global] Instance ToolSet_eq_dec : EqDecision ToolSet.
Proof. solve_decision. Defined.

(** The server, as far as registration is concerned: the tool sets added. *)
Definition MCPServer : Type := list ToolSet.

Definition AddTools (s : MCPServer) (tools : ToolSet) : MCPServer :=
  s ++ [tools].

(** [if cond { s.AddTools(...) ... }] *)
Definition when (cond : bool) (body : MCPServer -> MCPServer) (s : MCPServer)
  : MCPServer :=
  if cond then body s else s.

(** A Go [error]: [None] is [nil]. *)
Definition error : Type := option string.

(** ** The environment *)

(** What a run of [Register] depends on besides its arguments:
    - [NewAppPlatformTool]: the error returned by [apps.NewAppPlatformTool],
      the only tool constructor with an error result;
    - [rangeDefault]: the order in which [for k := range supportedServices]
      yields the keys when no service was requested;
    - [rangeFilters]: the order in which [range serviceFilters] yields the
      entries of the filter map;
    - [rangeNames]: the order in which [setToString] ranges over the catalog. *)
Record Env : Type := mkEnv {
  NewAppPlatformTool : error;
  rangeDefault : list string;
  rangeFilters : gmap string (list string) -> list (string * list string);
  rangeNames : list string
}.

(** ** The service catalog *)

Definition supportedServices : gmap string string :=
  list_to_map
    [ ("apps", "basic"); ("networking", "basic"); ("droplets", "basic");
      ("accounts", "basic"); ("spaces", "basic"); ("databases", "basic");
      ("marketplace", "basic"); ("insights", "basic"); ("doks", "basic") ].

(** The keys of [supportedServices], in the order of the map literal. *)
Definition serviceNames : list string :=
  [ "apps"; "networking"; "droplets"; "accounts"; "spaces"; "databases";
    "marketplace"; "insights"; "doks" ].

(** [range] visits every entry of a map exactly once, in some order. *)
Definition EnvOK (env : Env) : Prop :=
  rangeDefault env ≡ₚ serviceNames /\
  (forall m, rangeFilters env m ≡ₚ map_to_list m) /\
  rangeNames env ≡ₚ serviceNames.

(** ** The registration functions *)

Definition registerAppTools (env : Env) (s : MCPServer)
    (categories : list string) : MCPServer * error :=
  match NewAppPlatformTool env with
  | Some err => (s, Some ("failed to create apps tool: " +:+ err))
  | None => (AddTools s AppPlatformTool, None)
  end.

Definition registerCommonTools (s : MCPServer) : MCPServer * error :=
  (AddTools s RegionTools, None).

Definition registerDropletTools (s : MCPServer) (categories : list string)
  : MCPServer * error :=
  let s := when (hasCategory categories "basic")
             (fun s => AddTools s DropletTool) s in
  let s := when (hasCategory categories "actions")
             (fun s => AddTools s DropletActionsTool) s in
  let s := when (hasCategory categories "images")
             (fun s => AddTools (AddTools s ImageTool) ImageActionsTool) s in
  let s := when (hasCategory categories "sizes")
             (fun s => AddTools s SizesTool) s in
  (s, None).

Definition registerNetworkingTools (s : MCPServer) (categories : list string)
  : MCPServer * error :=
  let s := when (hasCategory categories "basic" || hasCategory categories "lb")
             (fun s => AddTools s LoadBalancersTool) s in
  let s := when (hasCategory categories "firewall")
             (fun s => AddTools s NetFirewallTool) s in
  let s := when (hasCategory categories "dns")
             (fun s => AddTools (AddTools s DomainsTool) CertificateTool) s in
  let s := when (hasCategory categories "vpc")
             (fun s => AddTools (AddTools s VPCTool) VPCPeeringTool) s in
  let s := when (hasCategory categories "ip")
             (fun s => AddTools (AddTools s ReservedIPTool) BYOIPPrefixTool) s in
  (s, None).

Definition registerAccountTools (s : MCPServer) (categories : list string)
  : MCPServer * error :=
  let s := when (hasCategory categories "basic" || hasCategory categories "info")
             (fun s => AddTools s AccountTools) s in
  let s := when (hasCategory categories "billing")
             (fun s => AddTools (AddTools (AddTools s BalanceTools) BillingTools)
                         InvoiceTools) s in
  let s := when (hasCategory categories "keys")
             (fun s => AddTools s KeysTool) s in
  let s := when (hasCategory categories "actions")
             (fun s => AddTools s ActionTools) s in
  (s, None).

Definition registerSpacesTools (s : MCPServer) (categories : list string)
  : MCPServer * error :=
  let s := when (hasCategory categories "basic" || hasCategory categories "keys")
             (fun s => AddTools s SpacesKeysTool) s in
  let s := when (hasCategory categories "cdn")
             (fun s => AddTools s CDNTool) s in
  (s, None).

Definition registerMarketplaceTools (s : MCPServer) (categories : list string)
  : MCPServer * error :=
  (AddTools s OneClickTool, None).

Definition registerInsightsTools (s : MCPServer) (categories : list string)
  : MCPServer * error :=
  let s := when (hasCategory categories "basic" || hasCategory categories "uptime")
             (fun s => AddTools (AddTools s UptimeTool) UptimeCheckAlertTool) s in
  let s := when (hasCategory categories "alerts")
             (fun s => AddTools s AlertPolicyTool) s in
  (s, None).

Definition registerDOKSTools (s : MCPServer) (categories : list string)
  : MCPServer * error :=
  (AddTools s DoksTool, None).

Definition registerDatabasesTools (s : MCPServer) (categories : list string)
  : MCPServer * error :=
  let s := when (hasCategory categories "basic" || hasCategory categories "cluster")
             (fun s => AddTools s ClusterTool) s in
  let s := when (hasCategory categories "postgresql")
             (fun s => AddTools s PostgreSQLTool) s in
  let s := when (hasCategory categories "mysql")
             (fun s => AddTools s MysqlTool) s in
  let s := when (hasCategory categories "mongodb")
             (fun s => AddTools s MongoTool) s in
  let s := when (hasCategory categories "redis")
             (fun s => AddTools s RedisTool) s in
  let s := when (hasCategory categories "kafka")
             (fun s => AddTools s KafkaTool) s in
  let s := when (hasCategory categories "opensearch")
             (fun s => AddTools s OpenSearchTool) s in
  let s := when (hasCategory categories "users")
             (fun s => AddTools s UserTool) s in
  let s := when (hasCategory categories "firewall")
             (fun s => AddTools s DbFirewallTool) s in
  (s, None).

(** ** The driver *)

Definition setToString (env : Env) : string := Join (rangeNames env) ",".

(** The [switch svc] of [Register]; a service outside the nine cases leaves
    [err] at [nil]. *)
Definition registerService (env : Env) (s : MCPServer) (svc : string)
    (categories : list string) : MCPServer * error :=
  if String.eqb svc "apps" then registerAppTools env s categories
  else if String.eqb svc "networking" then registerNetworkingTools s categories
  else if String.eqb svc "droplets" then registerDropletTools s categories
  else if String.eqb svc "accounts" then registerAccountTools s categories
  else if String.eqb svc "spaces" then registerSpacesTools s categories
  else if String.eqb svc "databases" then registerDatabasesTools s categories
  else if String.eqb svc "marketplace" then registerMarketplaceTools s categories
  else if String.eqb svc "insights" then registerInsightsTools s categories
  else if String.eqb svc "doks" then registerDOKSTools s categories
  else (s, None).

(** The message of the unknown-service error. *)
Definition unsupportedError (env : Env) (svc : string) : string :=
  "unsupported service: " +:+ svc +:+ ", supported services are: "
    +:+ setToString env.

(** The body of [for svc, categories := range serviceFilters], over the
    entries in the order in which [range] yields them; an error returns from
    [Register] at once. *)
Fixpoint registerLoop (env : Env) (s : MCPServer)
    (entries : list (string * list string)) : MCPServer * error :=
  match entries with
  | [] => (s, None)
  | (svc, categories) :: rest =>
      match supportedServices !! svc with
      | None => (s, Some (unsupportedError env svc))
      | Some _ =>
          match registerService env s svc categories with
          | (s', Some err) =>
              (s', Some ("failed to register " +:+ svc +:+ " tools: " +:+ err))
          | (s', None) => registerLoop env s' rest
          end
      end
  end.

Definition Register (env : Env) (s : MCPServer)
    (servicesToActivate : list string) : MCPServer * error :=
  let servicesToActivate :=
    if Nat.eqb (length servicesToActivate) 0
    then servicesToActivate ++ rangeDefault env
    else servicesToActivate in
  let serviceFilters := parseServiceFilters servicesToActivate in
  match registerLoop env s (rangeFilters env serviceFilters) with
  | (s', Some err) => (s', Some err)
  | (s', None) =>
      match registerCommonTools s' with
      | (s'', Some err) =>
          (s'', Some ("failed to register common tools: " +:+ err))
      | (s'', None) => (s'', None)
      end
  end.

(** ** Concrete environments *)

(** Every [range] follows the order of the map literal, respectively of
    [map_to_list]; the apps tool is constructed. *)
Definition env0 : Env :=
  mkEnv None serviceNames map_to_list serviceNames.

(** As [env0], but the apps tool cannot be constructed. *)
Definition envFail : Env :=
  mkEnv (Some "no schema") serviceNames map_to_list serviceNames.

(** The entries of the apps service moved to the front. *)
Definition appsFirst (entries : list (string * list string))
  : list (string * list string) :=
  filter (fun e => e.1 = "apps") entries
  ++ filter (fun e => ~ e.1 = "apps") entries.

(** As [envFail], and [range serviceFilters] visits apps first. *)
Definition envFailFirst : Env :=
  mkEnv (Some "no schema") serviceNames
    (fun m => appsFirst (map_to_list m)) serviceNames.

(** ** The registry as a table *)

(** A gate of a registration function: the category names whose presence
    opens it (the disjuncts of its [if]) and the tool sets it adds. *)
Definition Gate : Type := list string * list ToolSet.

Definition fires (categories : list string) (g : Gate) : bool :=
  existsb (hasCategory categories) (fst g).

(** The tool sets added by a sequence of gated blocks. *)
Definition gated (categories : list string) (table : list Gate)
  : list ToolSet :=
  flat_map (fun g => if fires categories g then snd g else []) table.

(** The gated blocks of each registration function, in source order. *)
Definition gateTable (svc : string) : list Gate :=
  if String.eqb svc "droplets" then
    [ (["basic"], [DropletTool]); (["actions"], [DropletActionsTool]);
      (["images"], [ImageTool; ImageActionsTool]); (["sizes"], [SizesTool]) ]
  else if String.eqb svc "networking" then
    [ (["basic"; "lb"], [LoadBalancersTool]); (["firewall"], [NetFirewallTool]);
      (["dns"], [DomainsTool; CertificateTool]);
      (["vpc"], [VPCTool; VPCPeeringTool]);
      (["ip"], [ReservedIPTool; BYOIPPrefixTool]) ]
  else if String.eqb svc "accounts" then
    [ (["basic"; "info"], [AccountTools]);
      (["billing"], [BalanceTools; BillingTools; InvoiceTools]);
      (["keys"], [KeysTool]); (["actions"], [ActionTools]) ]
  else if String.eqb svc "spaces" then
    [ (["basic"; "keys"], [SpacesKeysTool]); (["cdn"], [CDNTool]) ]
  else if String.eqb svc "insights" then
    [ (["basic"; "uptime"], [UptimeTool; UptimeCheckAlertTool]);
      (["alerts"], [AlertPolicyTool]) ]
  else if String.eqb svc "databases" then
    [ (["basic"; "cluster"], [ClusterTool]); (["postgresql"], [PostgreSQLTool]);
      (["mysql"], [MysqlTool]); (["mongodb"], [MongoTool]);
      (["redis"], [RedisTool]); (["kafka"], [KafkaTool]);
      (["opensearch"], [OpenSearchTool]); (["users"], [UserTool]);
      (["firewall"], [DbFirewallTool]) ]
  else [].

(** The tool sets a registration function adds outside any category gate. *)
Definition ungatedTools (svc : string) : list ToolSet :=
  if String.eqb svc "apps" then [AppPlatformTool]
  else if String.eqb svc "marketplace" then [OneClickTool]
  else if String.eqb svc "doks" then [DoksTool]
  else [].

(** Every tool set (capability group) of a service. *)
Definition toolSetsOf (svc : string) : list ToolSet :=
  ungatedTools svc ++ flat_map snd (gateTable svc).

(** The category names tested by the gates of a service. *)
Definition gateNames (svc : string) : list string :=
  flat_map fst (gateTable svc).

(** The services whose registration function has category gates. *)
Definition subGated : list string :=
  [ "networking"; "droplets"; "accounts"; "spaces"; "databases"; "insights" ].

(** The service a tool set belongs to; the common tools belong to none. *)
Definition owner (t : ToolSet) : option string :=
  match t with
  | AppPlatformTool => Some "apps"
  | RegionTools => None
  | DropletTool | DropletActionsTool | ImageTool | ImageActionsTool
  | SizesTool => Some "droplets"
  | LoadBalancersTool | NetFirewallTool | DomainsTool | CertificateTool
  | VPCTool | VPCPeeringTool | ReservedIPTool | BYOIPPrefixTool =>
      Some "networking"
  | AccountTools | BalanceTools | BillingTools | InvoiceTools | KeysTool
  | ActionTools => Some "accounts"
  | SpacesKeysTool | CDNTool => Some "spaces"
  | OneClickTool => Some "marketplace"
  | UptimeTool | UptimeCheckAlertTool | AlertPolicyTool => Some "insights"
  | DoksTool => Some "doks"
  | ClusterTool | PostgreSQLTool | MysqlTool | MongoTool | RedisTool
  | KafkaTool | OpenSearchTool | UserTool | DbFirewallTool => Some "databases"
  end.

(** ** Observations *)

(** The tool sets a service's registration function adds to a fresh server. *)
Definition activated (env : Env) (svc : string) (categories : list string)
  : list ToolSet :=
  fst (registerService env [] svc categories).

(** The tool sets a call of [Register] adds to a fresh server. *)
Definition registered (env : Env) (tokens : list string) : list ToolSet :=
  fst (Register env [] tokens).

(** The service named by a token: the part before the first separator, or
    the whole token. *)
Definition tokenService (tok : string) : string :=
  let idx := Index tok colon in
  if (idx =? -1)%Z then tok else slice_to tok (Z.to_nat idx).

(** The category written in a token, if it has a separator. *)
Definition tokenCategory (tok : string) : option string :=
  let idx := Index tok colon in
  if (idx =? -1)%Z then None
  else Some (slice_from tok (Z.to_nat (idx + 1)%Z)).

(** The tokens [svc:c] for the categories [c] of a list. *)
Definition tokensFor (svc : string) (categories : list string) : list string :=
  map (fun c => svc +:+ ":" +:+ c) categories.

(** The tokens [Register] parses: the catalog keys when none was given. *)
Definition effectiveTokens (env : Env) (tokens : list string) : list string :=
  if Nat.eqb (length tokens) 0 then tokens ++ rangeDefault env else tokens.

(** The filter map [Register] builds. *)
Definition filtersOf (env : Env) (tokens : list string)
  : gmap string (list string) :=
  parseServiceFilters (effectiveTokens env tokens).

(** The entries of the filter map in the order [Register] visits them. *)
Definition entriesOf (env : Env) (tokens : list string)
  : list (string * list string) :=
  rangeFilters env (filtersOf env tokens).

(** A service is in the catalog. *)
Definition supported (svc : string) : Prop :=
  is_Some (supportedServices !! svc).

(** The registration of one entry of the filter map goes through. *)
Definition entryOK (env : Env) (e : string * list string) : Prop :=
  supported e.1 /\ snd (registerService env [] e.1 e.2) = None.

(** The error [Register] returns when the apps tool cannot be built. *)
Definition appsError (err : string) : string :=
  "failed to register apps tools: failed to create apps tool: " +:+ err.

(** The "basic" tool sets of the nine services. *)
Definition basicTools : list ToolSet :=
  [ AppPlatformTool; LoadBalancersTool; DropletTool; AccountTools;
    SpacesKeysTool; ClusterTool; OneClickTool; UptimeTool;
    UptimeCheckAlertTool; DoksTool ].

(** ** The filter map, service by service *)

(** What one token does to the category list of the service it names:
    [o] is the entry of that service before the token. *)
Definition stepAt (o : option (list string)) (tok : string)
  : option (list string) :=
  match tokenCategory tok with
  | None => Some (default ["basic"] o)
  | Some c => if String.eqb c "" then o else Some (default [] o ++ [c])
  end.

(** What an entry of the filter map looks like: some categories, none of
    them empty. *)
Definition wellFormedEntry (o : option (list string)) : Prop :=
  match o with
  | None => True
  | Some cs => cs <> [] /\ Forall (fun c => c <> "") cs
  end.

(** The tokens of a sequence that name the service [k]. *)
Definition tokensOf (k : string) (tokens : list string) : list string :=
  filter (fun tok => tokenService tok = k) tokens.

(** The category name that opens the same gate as ["basic"], for the
    services whose first gate is [basic || name]. *)
Definition basicAlias : list (string * string) :=
  [ ("networking", "lb"); ("accounts", "info"); ("spaces", "keys");
    ("insights", "uptime"); ("databases", "cluster") ].

(** A category list with every [from] written as [to]. *)
Definition renameCategory (from to : string) (categories : list string)
  : list string :=
  map (fun c => if String.eqb c from then to else c) categories.

(** ** The tool handlers of package [account]

    The handlers [getAccountInformation] and [getBalance] and the helper
    [response.CompactJSON]. The API client, [json.Marshal] and the result
    constructors of the protocol library are outside the repository and are
    parameters. A call that returns [(value, error)] and whose value is not
    a pointer the handler dereferences is a sum, [inl] for the value and
    [inr] for the message of the error. Where the handler dereferences what
    it was given, the nil case is kept: a handler returns [None] when it
    panics on a nil dereference. The context and the request are not
    inspected by the handlers and are left out. *)

Module Handlers.

(** The two result constructors the handlers use. *)
Inductive CallToolResult : Type :=
  | NewToolResultText (text : string)
  | NewToolResultErrorFromErr (msg : string) (err : string).

(** The part of the API client the handlers use: the services
    [client.Account] and [client.Balance] with the outcome of their [Get].
    [None] is a nil service: calling [Get] on it panics. *)
Record Client (Value : Type) : Type := mkClient {
  Account_Get : option (Value + string);
  Balance_Get : option (Value + string)
}.
Arguments mkClient {Value} _ _.
Arguments Account_Get {Value} _.
Arguments Balance_Get {Value} _.

(** The outcome of [a.client(ctx)]. [None]: the tools value or its client
    function is nil, the call panics. [Some (client, err)]: the pair the
    function returns, where the client pointer and the error may each be
    nil. *)
Definition Provider (Value : Type) : Type :=
  option (option (Client Value) * error).

(** [response.CompactJSON]. *)
Definition CompactJSON {Value : Type} (Marshal : Value -> string + string)
    (v : Value) : string * error :=
  match Marshal v with
  | inr err => ("", Some err)
  | inl data => (data, None)
  end.

(** The method [getAccountInformation] of [AccountTools]. *)
Definition getAccountInformation {Value : Type}
    (Marshal : Value -> string + string) (provider : Provider Value)
  : option (option CallToolResult * error) :=
  match provider with
  | None => None
  | Some (_, Some err) =>
      Some (None, Some ("failed to get DigitalOcean client: " +:+ err))
  | Some (None, None) => None
  | Some (Some client, None) =>
      match Account_Get client with
      | None => None
      | Some (inr err) =>
          Some (Some (NewToolResultErrorFromErr "api error" err), None)
      | Some (inl account) =>
          match CompactJSON Marshal account with
          | (_, Some err) =>
              Some (None, Some ("error marshalling account: " +:+ err))
          | (jsonData, None) => Some (Some (NewToolResultText jsonData), None)
          end
      end
  end.

(** The method [getBalance] of [BalanceTools]. *)
Definition getBalance {Value : Type}
    (Marshal : Value -> string + string) (provider : Provider Value)
  : option (option CallToolResult * error) :=
  match provider with
  | None => None
  | Some (_, Some err) =>
      Some (None, Some ("failed to get DigitalOcean client: " +:+ err))
  | Some (None, None) => None
  | Some (Some client, None) =>
      match Balance_Get client with
      | None => None
      | Some (inr err) =>
          Some (Some (NewToolResultErrorFromErr "api error" err), None)
      | Some (inl balance) =>
          match CompactJSON Marshal balance with
          | (_, Some err) => Some (None, Some ("marshal error: " +:+ err))
          | (jsonData, None) => Some (Some (NewToolResultText jsonData), None)
          end
      end
  end.

(** What the two handlers have in common, for the handler [h] that calls
    the service [get] and reports a marshalling error behind [prefix]. *)
Definition HandlerSpec {Value : Type} (Marshal : Value -> string + string)
    (get : Client Value -> option (Value + string)) (prefix : string)
    (h : Provider Value -> option (option CallToolResult * error)) : Prop :=
  forall provider,
    (h provider = None
     <-> provider = None \/ provider = Some (None, None) \/
         exists c, provider = Some (Some c, None) /\ get c = None) /\
    (forall r, h provider = Some r ->
       (fst r = None <-> is_Some (snd r)) /\
       (is_Some (snd r)
        <-> (exists c e, provider = Some (c, Some e)) \/
            (exists c v e, provider = Some (Some c, None) /\
                           get c = Some (inl v) /\ Marshal v = inr e))) /\
    (forall c e, provider = Some (c, Some e) ->
       h provider
       = Some (None, Some ("failed to get DigitalOcean client: " +:+ e))) /\
    (forall c e, provider = Some (Some c, None) -> get c = Some (inr e) ->
       h provider
       = Some (Some (NewToolResultErrorFromErr "api error" e), None)) /\
    (forall c v e, provider = Some (Some c, None) -> get c = Some (inl v) ->
       Marshal v = inr e ->
       h provider = Some (None, Some (prefix +:+ e))) /\
    (forall c v data, provider = Some (Some c, None) ->
       get c = Some (inl v) -> Marshal v = inl data ->
       h provider = Some (Some (NewToolResultText data), None)).

End Handlers.

(** * Properties *)

(** ** Strings *)

Section StringFacts.

Lemma Index_range (s : string) (sep : ascii) :
  Index s sep = (-1)%Z \/ (0 <= Index s sep < Z.of_nat (String.length s))%Z.
Proof.
  induction s as [|a r IH]; simpl; [by left|].
  destruct (Ascii.eqb a sep); [right; lia|].
  destruct IH as [->| IH]; [by left|].
  destruct (Z.eqb_spec (Index r sep) (-1)); [lia|]. right; lia.
Qed.

Lemma Index_app_sep (s rest : string) (sep : ascii) :
  Index s sep = (-1)%Z ->
  Index (s +:+ String sep rest) sep = Z.of_nat (String.length s).
Proof.
  induction s as [|a r IH]; simpl.
  - intros _. by rewrite Ascii.eqb_refl.
  - destruct (Ascii.eqb a sep); [discriminate|].
    destruct (Z.eqb_spec (Index r sep) (-1)) as [E|E];
      [|destruct (Index_range r sep); intros; lia].
    intros _. rewrite (IH E).
    destruct (Z.eqb_spec (Z.of_nat (String.length r)) (-1)); lia.
Qed.

Lemma append_nil_l (s : string) : "" +:+ s = s.
Proof. reflexivity. Qed.

Lemma append_cons (a : ascii) (r s : string) :
  String a r +:+ s = String a (r +:+ s).
Proof. reflexivity. Qed.

Lemma slice_to_app (s rest : string) :
  slice_to (s +:+ rest) (String.length s) = s.
Proof.
  induction s as [|a r IH]; [done|].
  rewrite append_cons. simpl. by rewrite IH.
Qed.

Lemma slice_from_app (s rest : string) :
  slice_from (s +:+ rest) (String.length s) = rest.
Proof. induction s as [|a r IH]; [done|]. by rewrite append_cons. Qed.

Lemma slice_from_app_S (s rest : string) (a : ascii) :
  slice_from (s +:+ String a rest) (S (String.length s)) = rest.
Proof. induction s as [|b r IH]; [done|]. by rewrite append_cons. Qed.

Lemma append_assoc (a b c : string) : (a +:+ b) +:+ c = a +:+ (b +:+ c).
Proof.
  induction a as [|x a IH]; [done|]. by rewrite !append_cons, IH.
Qed.

Lemma append_nil_r (a : string) : a +:+ "" = a.
Proof. induction a as [|x a IH]; [done|]. by rewrite append_cons, IH. Qed.

Lemma Contains_refl_mid (pre t post : string) : Contains (pre +:+ t +:+ post) t.
Proof. by exists pre, post. Qed.

Lemma Contains_prefix (p s t : string) : Contains s t -> Contains (p +:+ s) t.
Proof.
  intros (pre & post & ->). exists (p +:+ pre), post.
  by rewrite append_assoc.
Qed.

Lemma Contains_suffix (s q t : string) : Contains s t -> Contains (s +:+ q) t.
Proof.
  intros (pre & post & ->). exists pre, (post +:+ q).
  by rewrite !append_assoc.
Qed.

Lemma Join_Contains (elems : list string) (sep x : string) :
  In x elems -> Contains (Join elems sep) x.
Proof.
  induction elems as [|y rest IH]; [done|].
  intros [->|Hin].
  - destruct rest as [|z rest]; simpl.
    + exists "", "". by rewrite append_nil_r.
    + by exists "", (sep +:+ Join (z :: rest) sep).
  - destruct rest as [|z rest]; [done|].
    change (Join (y :: z :: rest) sep)
      with (y +:+ sep +:+ Join (z :: rest) sep).
    apply Contains_prefix, Contains_prefix, IH, Hin.
Qed.

End StringFacts.

(** ** The category resolver *)

Lemma hasCategory_true_iff (categories : list string) (x : string) :
  hasCategory categories x = true <-> In x categories \/ In "all" categories.
Proof.
  induction categories as [|c rest IH]; simpl.
  - split; [discriminate|tauto].
  - destruct (String.eqb_spec c x) as [->|Hx]; simpl; [tauto|].
    destruct (String.eqb_spec c "all") as [->|Ha]; simpl; [tauto|].
    rewrite IH. split; [tauto|]. intros [[?|?]|[?|?]]; tauto.
Qed.

Lemma hasCategory_all (categories : list string) (x : string) :
  In "all" categories -> hasCategory categories x = true.
Proof. intros H. apply hasCategory_true_iff. by right. Qed.

Lemma hasCategory_false_iff (categories : list string) (x : string) :
  hasCategory categories x = false <->
  ~ In x categories /\ ~ In "all" categories.
Proof.
  rewrite <- Bool.not_true_iff_false, hasCategory_true_iff. tauto.
Qed.

(** C2. [hasCategory categories x] is true exactly when [x] occurs in
    [categories] or ["all"] occurs in [categories]; this holds for every
    list, the empty one included. *)
Theorem hasCategory_spec (categories : list string) (x : string) :
  hasCategory categories x = true <-> In x categories \/ In "all" categories.
Proof.
  induction categories as [|c rest [IHl IHr]].
  - split; [discriminate|intros [[]|[]]].
  - simpl. destruct (String.eqb_spec c x) as [Hx|Hx]; simpl.
    + split; [intros _; left; by left|done].
    + destruct (String.eqb_spec c "all") as [Ha|Ha]; simpl.
      * split; [intros _; right; by left|done].
      * split.
        -- intros Hrest. destruct (IHl Hrest); [left|right]; by right.
        -- intros [[Hc|Hin]|[Hc|Hin]]; try contradiction;
             apply IHr; [by left|by right].
Qed.

Example hasCategory_all_firewall : hasCategory ["all"] "firewall" = true.
Proof. reflexivity. Qed.

Example hasCategory_lb_firewall : hasCategory ["lb"] "firewall" = false.
Proof. reflexivity. Qed.

(** ** The filter parser *)

Section Parser.

Implicit Types (m : gmap string (list string)) (toks : list string).

Lemma parseStep_plain m (svc : string) :
  no_colon svc ->
  parseStep m svc =
    match m !! svc with Some _ => m | None => <[svc := ["basic"]]> m end.
Proof. unfold no_colon, parseStep. by intros ->. Qed.

Lemma parseStep_category m (svc c : string) :
  no_colon svc ->
  parseStep m (svc +:+ ":" +:+ c) =
    if String.eqb c "" then m
    else <[svc := default [] (m !! svc) ++ [c]]> m.
Proof.
  intros Hsvc. unfold parseStep.
  change (":" +:+ c) with (String colon c).
  rewrite (Index_app_sep _ _ _ Hsvc).
  replace (Z.to_nat (Z.of_nat (String.length svc) + 1))
    with (S (String.length svc)) by lia.
  rewrite Nat2Z.id, slice_to_app, slice_from_app_S.
  destruct (Z.eqb_spec (Z.of_nat (String.length svc)) (-1)); [lia|].
  simpl. by destruct (String.eqb c "").
Qed.

Lemma parse_snoc toks (tok : string) :
  parseServiceFilters (toks ++ [tok]) = parseStep (parseServiceFilters toks) tok.
Proof. unfold parseServiceFilters. by rewrite foldl_app. Qed.

Lemma parse_app toks1 toks2 :
  parseServiceFilters (toks1 ++ toks2)
  = foldl parseStep (parseServiceFilters toks1) toks2.
Proof. unfold parseServiceFilters. by rewrite foldl_app. Qed.

Lemma parseStepChecked_total m (svc : string) :
  parseStepChecked m svc = Some (parseStep m svc).
Proof.
  unfold parseStepChecked, parseStep, slice_to_checked, slice_from_checked.
  destruct (Index_range svc colon) as [->|Hr];
    [simpl; by destruct (m !! svc)|].
  destruct (Z.eqb_spec (Index svc colon) (-1)); [lia|]. simpl.
  destruct (Z.leb_spec 0 (Index svc colon)); [|lia].
  destruct (Z.leb_spec (Index svc colon) (Z.of_nat (String.length svc)));
    [|lia].
  destruct (Z.leb_spec 0 (Index svc colon + 1)); [|lia].
  destruct (Z.leb_spec (Index svc colon + 1) (Z.of_nat (String.length svc)));
    [|lia].
  simpl. by destruct (String.eqb _ "").
Qed.

Lemma parseLoopChecked_total m toks :
  parseLoopChecked m toks = Some (foldl parseStep m toks).
Proof.
  revert m. induction toks as [|t rest IH]; intros m; simpl; [done|].
  rewrite parseStepChecked_total. simpl. apply IH.
Qed.

End Parser.

(** C3. A token without separator seeds its service with the single
    category ["basic"] when the service has no entry yet and changes nothing
    when it has one; a token with a non-empty category appends the category
    to what the service already has; so [["droplets"; "droplets:actions"]]
    yields [{"droplets": ["basic"; "actions"]}]. *)
Theorem parse_default_and_accumulate (toks : list string) (svc c : string) :
  no_colon svc ->
  (parseServiceFilters toks !! svc = None ->
     parseServiceFilters (toks ++ [svc])
     = <[svc := ["basic"]]> (parseServiceFilters toks)) /\
  (is_Some (parseServiceFilters toks !! svc) ->
     parseServiceFilters (toks ++ [svc]) = parseServiceFilters toks) /\
  (c <> "" ->
     parseServiceFilters (toks ++ [svc +:+ ":" +:+ c])
     = <[svc := default [] (parseServiceFilters toks !! svc) ++ [c]]>
         (parseServiceFilters toks)) /\
  parseServiceFilters ["droplets"; "droplets:actions"]
  = {[ "droplets" := ["basic"; "actions"] ]}.
Proof.
  intros Hsvc. split; [|split; [|split]].
  - intros Hnone. by rewrite parse_snoc, parseStep_plain, Hnone.
  - intros [cs Hcs]. by rewrite parse_snoc, parseStep_plain, Hcs.
  - intros Hc. rewrite parse_snoc, parseStep_category by done.
    by destruct (String.eqb_spec c "").
  - by vm_compute.
Qed.

Lemma parse_default_and_accumulate_witness :
  parseServiceFilters (["droplets:actions"] ++ ["droplets"])
  = parseServiceFilters ["droplets:actions"] /\
  parseServiceFilters ([] ++ ["spaces"]) = <[ "spaces" := ["basic"] ]> ∅ /\
  parseServiceFilters (["droplets"] ++ ["droplets" +:+ ":" +:+ "sizes"])
  = <[ "droplets" := ["basic"; "sizes"] ]> (parseServiceFilters ["droplets"]).
Proof.
  split; [|split].
  - apply (parse_default_and_accumulate ["droplets:actions"] "droplets" "x");
      [reflexivity|]. by eexists; vm_compute.
  - apply (parse_default_and_accumulate [] "spaces" "x"); reflexivity.
  - apply (parse_default_and_accumulate ["droplets"] "droplets" "sizes");
      [reflexivity|discriminate].
Defined.

(** C9. A token ["service:"] leaves the filter map as it was, wherever it
    stands in the input, so it adds no entry; and the parser never fails: no
    slice of a token is out of range, whatever the input strings are. *)
Theorem empty_category_dropped (pre post : list string) (svc : string) :
  no_colon svc ->
  parseServiceFilters (pre ++ [svc +:+ ":"] ++ post)
  = parseServiceFilters (pre ++ post) /\
  parseServiceFilters [svc +:+ ":"] = ∅ /\
  (forall services,
     parseServiceFiltersChecked services
     = Some (parseServiceFilters services)).
Proof.
  intros Hsvc.
  assert (Hstep : forall m, parseStep m (svc +:+ ":") = m).
  { intros m. by rewrite <- (append_nil_r ":"), parseStep_category. }
  split; [|split].
  - rewrite !parse_app. simpl. by rewrite Hstep.
  - unfold parseServiceFilters. simpl. apply Hstep.
  - intros services. apply parseLoopChecked_total.
Qed.

Lemma empty_category_dropped_witness :
  parseServiceFilters (["apps"] ++ ["droplets" +:+ ":"] ++ ["doks:x"])
  = parseServiceFilters (["apps"] ++ ["doks:x"]) /\
  parseServiceFilters ["droplets" +:+ ":"] = ∅.
Proof.
  destruct (empty_category_dropped ["apps"] ["doks:x"] "droplets")
    as (H1 & H2 & _); [reflexivity|]. by split.
Defined.

(** ** The registration functions and the gate table *)

Section Registry.

Implicit Types (s : MCPServer) (categories : list string) (svc : string).

(** Decide every gate of a registration function. *)
Ltac decide_gates :=
  repeat match goal with
    | |- context [hasCategory ?cs ?c] => destruct (hasCategory cs c)
    end.

Ltac by_gates :=
  intros; unfold gated, fires, when, AddTools; simpl;
  decide_gates; simpl; rewrite <- ?app_assoc, ?app_nil_r; reflexivity.

Lemma registerDropletTools_table s categories :
  registerDropletTools s categories
  = (s ++ gated categories (gateTable "droplets"), None).
Proof. unfold registerDropletTools. by_gates. Qed.

Lemma registerNetworkingTools_table s categories :
  registerNetworkingTools s categories
  = (s ++ gated categories (gateTable "networking"), None).
Proof. unfold registerNetworkingTools. by_gates. Qed.

Lemma registerAccountTools_table s categories :
  registerAccountTools s categories
  = (s ++ gated categories (gateTable "accounts"), None).
Proof. unfold registerAccountTools. by_gates. Qed.

Lemma registerSpacesTools_table s categories :
  registerSpacesTools s categories
  = (s ++ gated categories (gateTable "spaces"), None).
Proof. unfold registerSpacesTools. by_gates. Qed.

Lemma registerInsightsTools_table s categories :
  registerInsightsTools s categories
  = (s ++ gated categories (gateTable "insights"), None).
Proof. unfold registerInsightsTools. by_gates. Qed.

Lemma registerDatabasesTools_table s categories :
  registerDatabasesTools s categories
  = (s ++ gated categories (gateTable "databases"), None).
Proof. unfold registerDatabasesTools. by_gates. Qed.

End Registry.

(** ** The catalog *)

Section Catalog.

Implicit Types (s : MCPServer) (categories : list string) (svc : string).

Lemma supported_iff svc : supported svc <-> In svc serviceNames.
Proof.
  unfold supported, supportedServices. split.
  - intros [d Hd]. apply elem_of_list_to_map_2 in Hd.
    repeat (apply elem_of_cons in Hd as [Hd|Hd];
            [injection Hd as -> _; simpl; tauto|]).
    by apply elem_of_nil in Hd.
  - intros Hin. simpl in Hin.
    repeat (destruct Hin as [<-|Hin]; [by eexists; vm_compute|]). done.
Qed.

Lemma unsupported_iff svc :
  supportedServices !! svc = None <-> ~ In svc serviceNames.
Proof.
  rewrite <- supported_iff. unfold supported.
  rewrite <- eq_None_not_Some. tauto.
Qed.

(** The registration function of every service other than apps, as a row of
    the table. *)
Lemma registerService_table env s svc categories :
  In svc serviceNames -> svc <> "apps" ->
  registerService env s svc categories
  = (s ++ ungatedTools svc ++ gated categories (gateTable svc), None).
Proof.
  intros Hin Hne. simpl in Hin.
  destruct Hin as [<-|[<-|[<-|[<-|[<-|[<-|[<-|[<-|[<-|[]]]]]]]]]];
    [done| | | | | | | |]; unfold registerService; simpl.
  - apply registerNetworkingTools_table.
  - apply registerDropletTools_table.
  - apply registerAccountTools_table.
  - apply registerSpacesTools_table.
  - apply registerDatabasesTools_table.
  - reflexivity.
  - apply registerInsightsTools_table.
  - reflexivity.
Qed.

Lemma registerService_apps env s categories :
  registerService env s "apps" categories
  = match NewAppPlatformTool env with
    | Some err => (s, Some ("failed to create apps tool: " +:+ err))
    | None => (s ++ [AppPlatformTool], None)
    end.
Proof. reflexivity. Qed.

Lemma registerService_unsupported env s svc categories :
  ~ In svc serviceNames -> registerService env s svc categories = (s, None).
Proof.
  intros Hnot. unfold registerService.
  repeat match goal with
    | |- context [String.eqb svc ?k] =>
        destruct (String.eqb_spec svc k) as [->|_];
        [exfalso; apply Hnot; simpl; tauto|]
    end.
  reflexivity.
Qed.

(** Every registration function only appends to the server. *)
Lemma registerService_frame env s svc categories :
  registerService env s svc categories
  = (s ++ activated env svc categories,
     snd (registerService env [] svc categories)).
Proof.
  unfold activated.
  destruct (decide (In svc serviceNames)) as [Hin|Hnot].
  - destruct (decide (svc = "apps")) as [->|Hne].
    + rewrite !registerService_apps. by destruct (NewAppPlatformTool env);
        simpl; rewrite ?app_nil_r.
    + by rewrite !(registerService_table _ _ _ _ Hin Hne).
  - rewrite !registerService_unsupported by done. simpl. by rewrite app_nil_r.
Qed.

Lemma registerService_error env svc categories err :
  snd (registerService env [] svc categories) = Some err ->
  svc = "apps" /\
  exists e, NewAppPlatformTool env = Some e /\
            err = "failed to create apps tool: " +:+ e.
Proof.
  destruct (decide (In svc serviceNames)) as [Hin|Hnot].
  - destruct (decide (svc = "apps")) as [->|Hne].
    + rewrite registerService_apps.
      destruct (NewAppPlatformTool env) as [e|]; simpl; [|done].
      intros [= <-]. eauto.
    + by rewrite (registerService_table _ _ _ _ Hin Hne).
  - by rewrite registerService_unsupported.
Qed.

Lemma registerService_ok env svc categories :
  (svc = "apps" -> NewAppPlatformTool env = None) ->
  snd (registerService env [] svc categories) = None.
Proof.
  intros Happs.
  destruct (snd (registerService env [] svc categories)) as [err|] eqn:E;
    [|done].
  apply registerService_error in E as (-> & e & He & _).
  rewrite Happs in He; done.
Qed.

End Catalog.

(** ** Gates *)

Section Gates.

Implicit Types (categories : list string) (table : list Gate) (svc : string).

Lemma gated_sublist categories table :
  gated categories table `sublist_of` flat_map snd table.
Proof.
  induction table as [|g rest IH]; simpl; [constructor|].
  apply sublist_app; [|exact IH].
  destruct (fires categories g); [done|apply sublist_nil_l].
Qed.

Lemma fires_all categories (g : Gate) :
  In "all" categories -> fst g <> [] -> fires categories g = true.
Proof.
  intros Hall Hne. unfold fires. destruct (fst g) as [|n ns]; [done|].
  simpl. by rewrite (hasCategory_all _ _ Hall).
Qed.

Lemma gated_all categories table :
  In "all" categories -> Forall (fun g => fst g <> []) table ->
  gated categories table = flat_map snd table.
Proof.
  intros Hall. induction 1 as [|g rest Hg _ IH]; simpl; [done|].
  by rewrite (fires_all _ _ Hall Hg), IH.
Qed.

Lemma fires_none categories (g : Gate) :
  (forall n, In n (fst g) -> hasCategory categories n = false) ->
  fires categories g = false.
Proof.
  unfold fires. induction (fst g) as [|n ns IH]; simpl; [done|].
  intros H. rewrite (H n) by tauto. simpl. apply IH. intros; apply H; tauto.
Qed.

Lemma gated_none categories table :
  (forall n, In n (flat_map fst table) -> hasCategory categories n = false) ->
  gated categories table = [].
Proof.
  induction table as [|g rest IH]; simpl; [done|].
  intros H. rewrite fires_none, IH; [done| |];
    intros n Hn; apply H, in_or_app; tauto.
Qed.

Lemma gateTable_named svc : Forall (fun g => fst g <> []) (gateTable svc).
Proof.
  unfold gateTable.
  repeat (destruct (String.eqb svc _); [by repeat constructor|]).
  constructor.
Qed.

Lemma toolSetsOf_owner svc (t : ToolSet) :
  In t (toolSetsOf svc) -> owner t = Some svc /\ In svc serviceNames.
Proof.
  unfold toolSetsOf, ungatedTools, gateTable.
  repeat match goal with
    | |- context [String.eqb svc ?k] =>
        destruct (String.eqb_spec svc k) as [->|_]
    end; simpl; intros H;
    repeat (destruct H as [<-|H]; [simpl; tauto|]); done.
Qed.

Lemma toolSetsOf_NoDup svc : NoDup (toolSetsOf svc).
Proof.
  unfold toolSetsOf, ungatedTools, gateTable.
  repeat match goal with
    | |- context [String.eqb svc ?k] => destruct (String.eqb svc k)
    end; simpl; apply (bool_decide_unpack _); by vm_compute.
Qed.

Lemma activated_sublist env svc categories :
  activated env svc categories `sublist_of` toolSetsOf svc.
Proof.
  destruct (decide (In svc serviceNames)) as [Hin|Hnot].
  - destruct (decide (svc = "apps")) as [->|Hne].
    + unfold activated. rewrite registerService_apps.
      destruct (NewAppPlatformTool env); simpl; [apply sublist_nil_l|done].
    + unfold activated, toolSetsOf.
      rewrite (registerService_table _ _ _ _ Hin Hne). simpl.
      apply sublist_app; [done|apply gated_sublist].
  - unfold activated. rewrite registerService_unsupported by done.
    apply sublist_nil_l.
Qed.

Lemma activated_owner env svc categories (t : ToolSet) :
  In t (activated env svc categories) ->
  owner t = Some svc /\ In svc serviceNames.
Proof.
  intros Hin. apply toolSetsOf_owner, list_elem_of_In.
  eapply elem_of_sublist; [|apply (activated_sublist env svc categories)].
  by apply list_elem_of_In.
Qed.

Lemma activated_NoDup env svc categories :
  NoDup (activated env svc categories).
Proof.
  eapply sublist_NoDup; [apply toolSetsOf_NoDup|apply activated_sublist].
Qed.

(** With ["all"] among the categories a registration function that returns
    [nil] has added every tool set of its service. *)
Lemma registerService_all env s svc categories :
  In svc serviceNames -> In "all" categories ->
  (svc = "apps" -> NewAppPlatformTool env = None) ->
  registerService env s svc categories = (s ++ toolSetsOf svc, None).
Proof.
  intros Hin Hall Happs. destruct (decide (svc = "apps")) as [->|Hne].
  - rewrite registerService_apps, Happs; done.
  - rewrite (registerService_table _ _ _ _ Hin Hne).
    by rewrite (gated_all _ _ Hall (gateTable_named svc)).
Qed.

Lemma activated_incl_all env svc categories categories' :
  In svc serviceNames -> In "all" categories ->
  incl (activated env svc categories') (activated env svc categories).
Proof.
  intros Hin Hall t Ht. destruct (decide (svc = "apps")) as [->|Hne].
  - revert Ht. unfold activated. rewrite !registerService_apps.
    by destruct (NewAppPlatformTool env).
  - unfold activated.
    rewrite (registerService_table _ _ _ _ Hin Hne). simpl.
    rewrite (gated_all _ _ Hall (gateTable_named svc)).
    apply list_elem_of_In.
    change (t ∈ toolSetsOf svc).
    apply (elem_of_sublist (activated env svc categories'));
      [by apply list_elem_of_In|apply activated_sublist].
Qed.

End Gates.

(** ** Categories and the groups they activate *)

Lemma registerService_nil_iff env s svc categories :
  snd (registerService env s svc categories) = None
  <-> (svc = "apps" -> NewAppPlatformTool env = None).
Proof.
  rewrite registerService_frame. simpl. split.
  - intros Hok ->. revert Hok. rewrite registerService_apps.
    by destruct (NewAppPlatformTool env).
  - apply registerService_ok.
Qed.

(** C1, counterexample. When [apps.NewAppPlatformTool] returns an error,
    [registerAppTools] returns before its [AddTools]: with the category list
    [["all"]] the apps tool set is not activated. *)
Lemma all_misses_apps_on_constructor_error :
  In "apps" serviceNames /\ In "all" ["all"] /\
  registerService envFail [] "apps" ["all"]
  = ([], Some "failed to create apps tool: no schema") /\
  ~ incl (toolSetsOf "apps") (activated envFail "apps" ["all"]).
Proof.
  split; [simpl; tauto|]. split; [simpl; tauto|]. split; [reflexivity|].
  intros H. apply (H AppPlatformTool). simpl. tauto.
Qed.

(** C1, amended. For a supported service and a category list containing
    ["all"], the registration function returns [nil] unless the service is
    apps and its tool constructor failed; whenever it returns [nil] it has
    added every tool set of the service (every gate fired), whatever other
    tokens are present; and in every case what it adds for such a list
    includes what it adds for any other category list. *)
Theorem all_activates_every_group env s svc categories :
  In svc serviceNames -> In "all" categories ->
  (snd (registerService env s svc categories) = None
   <-> (svc = "apps" -> NewAppPlatformTool env = None)) /\
  (snd (registerService env s svc categories) = None ->
   fst (registerService env s svc categories) = s ++ toolSetsOf svc) /\
  (forall g, In g (gateTable svc) -> fires categories g = true) /\
  (forall categories',
     incl (activated env svc categories') (activated env svc categories)).
Proof.
  intros Hin Hall. split; [apply registerService_nil_iff|]. split; [|split].
  - intros Hok.
    pose proof (proj1 (registerService_nil_iff _ _ _ _) Hok) as Happs.
    by rewrite (registerService_all _ _ _ _ Hin Hall Happs).
  - intros g Hg. apply fires_all; [done|].
    pose proof (gateTable_named svc) as Hnamed.
    rewrite Forall_forall in Hnamed. by apply Hnamed, list_elem_of_In.
  - intros categories'. by apply activated_incl_all.
Qed.

Lemma all_activates_every_group_witness :
  fst (registerService env0 [] "networking" ["dns"; "all"])
  = [ LoadBalancersTool; NetFirewallTool; DomainsTool; CertificateTool;
      VPCTool; VPCPeeringTool; ReservedIPTool; BYOIPPrefixTool ] /\
  incl (activated env0 "networking" ["lb"; "ip"])
       (activated env0 "networking" ["dns"; "all"]).
Proof.
  destruct (all_activates_every_group env0 [] "networking" ["dns"; "all"])
    as (_ & Hall & _ & Hincl); [simpl; tauto|simpl; tauto|].
  split; [apply Hall; reflexivity|apply Hincl].
Defined.

(** C7, counterexample. With the category list [["basic"]] and a failing
    constructor, [registerAppTools] activates no group. *)
Lemma basic_apps_inactive_on_constructor_error :
  In "apps" serviceNames /\ In "basic" ["basic"] /\
  NewAppPlatformTool envFail = Some "no schema" /\
  activated envFail "apps" ["basic"] = [].
Proof. split; [simpl; tauto|]. split; [simpl; tauto|]. by split. Qed.

Lemma basic_gate_fires svc categories :
  In svc subGated -> In "basic" categories ->
  gated categories (gateTable svc) <> [].
Proof.
  intros Hin Hbasic.
  assert (Hb : hasCategory categories "basic" = true)
    by (apply hasCategory_true_iff; tauto).
  simpl in Hin.
  destruct Hin as [<-|[<-|[<-|[<-|[<-|[<-|[]]]]]]];
    unfold gated, fires; simpl; by rewrite Hb.
Qed.

(** C7, amended. For a supported service and a category list containing
    ["basic"], the registration function returns [nil] unless the service is
    apps and its tool constructor failed, and whenever it returns [nil] it
    has activated at least one group. doks and marketplace activate their
    single group for every category list; apps does so for every category
    list whenever its constructor succeeds. *)
Theorem basic_activates_some_group env svc categories :
  In svc serviceNames -> In "basic" categories ->
  (snd (registerService env [] svc categories) = None
   <-> (svc = "apps" -> NewAppPlatformTool env = None)) /\
  (snd (registerService env [] svc categories) = None ->
   activated env svc categories <> []) /\
  (forall categories',
     activated env "doks" categories' = [DoksTool] /\
     activated env "marketplace" categories' = [OneClickTool] /\
     (NewAppPlatformTool env = None ->
      activated env "apps" categories' = [AppPlatformTool])).
Proof.
  intros Hin Hbasic. split; [apply registerService_nil_iff|]. split.
  - intros Hok.
    pose proof (proj1 (registerService_nil_iff _ _ _ _) Hok) as Happs.
    destruct (decide (svc = "apps")) as [->|Hne].
    + unfold activated. rewrite registerService_apps, Happs; done.
    + unfold activated. rewrite (registerService_table _ _ _ _ Hin Hne).
      simpl fst. intros Hnil.
      apply app_eq_nil in Hnil as [Hungated Hgated].
      simpl in Hin.
      destruct Hin as [<-|[<-|[<-|[<-|[<-|[<-|[<-|[<-|[<-|[]]]]]]]]]];
        try done;
        apply (basic_gate_fires _ categories) in Hgated; simpl; tauto.
  - intros categories'. split; [done|]. split; [done|].
    intros Hok. unfold activated. by rewrite registerService_apps, Hok.
Qed.

Lemma basic_activates_some_group_witness :
  activated env0 "spaces" ["cdn"; "basic"] <> [] /\
  activated env0 "apps" ["bogus"] = [AppPlatformTool].
Proof.
  destruct (basic_activates_some_group env0 "spaces" ["cdn"; "basic"])
    as (_ & Hsome & Hsingle); [simpl; tauto|simpl; tauto|].
  split; [apply Hsome; reflexivity|].
  apply (Hsingle ["bogus"]). reflexivity.
Defined.

(** ** The registration loop *)

Section Driver.

Implicit Types (s : MCPServer) (entries : list (string * list string)).

Lemma registerLoop_cons env s svc categories entries :
  registerLoop env s ((svc, categories) :: entries)
  = match supportedServices !! svc with
    | None => (s, Some (unsupportedError env svc))
    | Some _ =>
        match snd (registerService env [] svc categories) with
        | Some err =>
            (s ++ activated env svc categories,
             Some ("failed to register " +:+ svc +:+ " tools: " +:+ err))
        | None => registerLoop env (s ++ activated env svc categories) entries
        end
    end.
Proof.
  simpl. destruct (supportedServices !! svc); [|done].
  rewrite registerService_frame.
  by destruct (snd (registerService env [] svc categories)).
Qed.

Lemma registerLoop_frame env s entries :
  registerLoop env s entries
  = (s ++ fst (registerLoop env [] entries),
     snd (registerLoop env [] entries)).
Proof.
  revert s. induction entries as [|[svc categories] rest IH]; intros s.
  - simpl. by rewrite app_nil_r.
  - rewrite !registerLoop_cons.
    destruct (supportedServices !! svc); [|by simpl; rewrite app_nil_r].
    destruct (snd (registerService env [] svc categories)); [done|].
    rewrite (IH (s ++ _)), (IH ([] ++ _)). simpl. by rewrite app_assoc.
Qed.

Lemma registerLoop_nil_iff env entries :
  snd (registerLoop env [] entries) = None <-> Forall (entryOK env) entries.
Proof.
  induction entries as [|[svc categories] rest IH].
  - split; [constructor|done].
  - rewrite registerLoop_cons, Forall_cons. unfold entryOK at 1, supported.
    simpl. destruct (supportedServices !! svc) as [d|].
    + destruct (snd (registerService env [] svc categories)) as [err|].
      * split; [done|]. by intros [[_ ?] _].
      * rewrite registerLoop_frame. simpl. rewrite IH.
        split; [by intros; repeat split; eauto|tauto].
    + split; [done|]. intros [[[? ?] _] _]; done.
Qed.

Lemma registerLoop_calls_ok env entries :
  Forall (entryOK env) entries ->
  fst (registerLoop env [] entries)
  = flat_map (fun e => activated env e.1 e.2) entries.
Proof.
  induction 1 as [|[svc categories] rest [[d Hd] Hok] _ IH]; [done|].
  simpl in Hd, Hok. rewrite registerLoop_cons, Hd, Hok.
  rewrite registerLoop_frame. simpl. by rewrite IH.
Qed.

Lemma registerLoop_calls_in env entries (t : ToolSet) :
  In t (fst (registerLoop env [] entries)) ->
  exists e, In e entries /\ In t (activated env e.1 e.2).
Proof.
  induction entries as [|[svc categories] rest IH]; [done|].
  rewrite registerLoop_cons.
  destruct (supportedServices !! svc); [|done].
  destruct (snd (registerService env [] svc categories)).
  - simpl. intros Ht. exists (svc, categories). simpl. tauto.
  - rewrite registerLoop_frame. simpl. intros [Ht|Ht]%in_app_or.
    + exists (svc, categories). simpl. tauto.
    + destruct (IH Ht) as (e & He & Hte). exists e. simpl. tauto.
Qed.

Lemma registerLoop_NoDup env entries :
  NoDup entries.*1 -> NoDup (fst (registerLoop env [] entries)).
Proof.
  induction entries as [|[svc categories] rest IH]; [constructor|].
  rewrite registerLoop_cons, fmap_cons, NoDup_cons.
  intros [Hfresh Hrest]. simpl in Hfresh.
  destruct (supportedServices !! svc); [|constructor].
  destruct (snd (registerService env [] svc categories));
    [simpl; apply activated_NoDup|].
  rewrite registerLoop_frame. simpl. apply NoDup_app.
  split; [apply activated_NoDup|]. split; [|by apply IH].
  intros t Ht%list_elem_of_In Ht'%list_elem_of_In.
  apply activated_owner in Ht as [Hown _].
  apply registerLoop_calls_in in Ht' as ([svc' cs'] & He & Ht').
  apply activated_owner in Ht' as [Hown' _]. simpl in Hown'.
  assert (svc' = svc) as -> by congruence.
  apply Hfresh, list_elem_of_fmap. exists (svc, cs').
  split; [done|by apply list_elem_of_In].
Qed.

Lemma registerLoop_no_common env entries :
  ~ In RegionTools (fst (registerLoop env [] entries)).
Proof.
  intros (e & _ & Ht)%registerLoop_calls_in.
  by apply activated_owner in Ht as [? _].
Qed.

(** The loop stops with the unknown-service error at the first entry that is
    not in the catalog, unless a constructor fails before. *)
Lemma registerLoop_unsupported env entries :
  Exists (fun e => supportedServices !! e.1 = None) entries ->
  (NewAppPlatformTool env = None \/ ~ In "apps" entries.*1) ->
  exists bad, In bad entries.*1 /\ supportedServices !! bad = None /\
              snd (registerLoop env [] entries)
              = Some (unsupportedError env bad).
Proof.
  induction entries as [|[svc categories] rest IH];
    [by intros ?%Exists_nil|].
  intros Hex Happs. rewrite registerLoop_cons, fmap_cons. simpl.
  destruct (supportedServices !! svc) as [d|] eqn:Hsvc.
  - apply Exists_cons in Hex as [Hex|Hex]; [simpl in Hex; congruence|].
    rewrite registerService_ok.
    + rewrite registerLoop_frame. simpl.
      destruct (IH Hex) as (bad & Hbad & Hno & Herr).
      { destruct Happs as [?|Hnot]; [by left|].
        right. intros ?. apply Hnot. rewrite fmap_cons. simpl. tauto. }
      exists bad. tauto.
    + intros ->. destruct Happs as [?|Hnot]; [done|].
      exfalso. apply Hnot. rewrite fmap_cons. simpl. tauto.
  - exists svc. tauto.
Qed.

(** With every entry in the catalog the loop fails exactly when apps is
    among them and its constructor fails. *)
Lemma registerLoop_supported env entries :
  Forall (fun e => supported e.1) entries ->
  snd (registerLoop env [] entries)
  = if bool_decide ("apps" ∈ entries.*1)
    then appsError <$> NewAppPlatformTool env else None.
Proof.
  induction 1 as [|[svc categories] rest [d Hd] _ IH]; [done|].
  simpl in Hd. rewrite registerLoop_cons, Hd, fmap_cons. simpl.
  destruct (decide (svc = "apps")) as [->|Hne].
  - rewrite bool_decide_eq_true_2 by apply list_elem_of_here.
    rewrite registerService_apps.
    destruct (NewAppPlatformTool env) as [e|] eqn:He; simpl; [done|].
    rewrite registerLoop_frame. simpl. rewrite IH. by case_bool_decide.
  - rewrite registerService_ok by done.
    rewrite registerLoop_frame. simpl. rewrite IH.
    apply (f_equal (fun b : bool =>
                      if b then appsError <$> NewAppPlatformTool env else None)).
    apply bool_decide_ext. rewrite elem_of_cons.
    split; [tauto|intros [?|?]; [congruence|done]].
Qed.

Lemma Register_unfold env s tokens :
  Register env s tokens
  = match snd (registerLoop env [] (entriesOf env tokens)) with
    | Some err =>
        (s ++ fst (registerLoop env [] (entriesOf env tokens)), Some err)
    | None =>
        (s ++ fst (registerLoop env [] (entriesOf env tokens))
           ++ [RegionTools], None)
    end.
Proof.
  unfold Register.
  change (rangeFilters env _) with (entriesOf env tokens).
  rewrite registerLoop_frame.
  destruct (snd (registerLoop env [] (entriesOf env tokens))); [done|].
  unfold registerCommonTools, AddTools. by rewrite app_assoc.
Qed.

Lemma Register_frame env s tokens :
  Register env s tokens
  = (s ++ registered env tokens, snd (Register env [] tokens)).
Proof.
  unfold registered. rewrite !Register_unfold.
  by destruct (snd (registerLoop env [] (entriesOf env tokens))).
Qed.

Lemma Register_nil_shape env s tokens :
  snd (Register env s tokens) = None ->
  fst (Register env s tokens)
  = s ++ flat_map (fun e => activated env e.1 e.2) (entriesOf env tokens)
      ++ [RegionTools].
Proof.
  rewrite Register_unfold.
  destruct (snd (registerLoop env [] (entriesOf env tokens))) eqn:E; [done|].
  intros _. simpl. rewrite registerLoop_calls_ok; [done|].
  by apply registerLoop_nil_iff.
Qed.

End Driver.

(** ** The order of [range] *)

Section Range.

Variable env : Env.
Hypothesis env_ok : EnvOK env.

Lemma entriesOf_perm tokens :
  entriesOf env tokens ≡ₚ map_to_list (filtersOf env tokens).
Proof. destruct env_ok as (_ & Hrange & _). apply Hrange. Qed.

Lemma entriesOf_NoDup tokens : NoDup (entriesOf env tokens).*1.
Proof.
  rewrite (entriesOf_perm tokens). apply NoDup_fst_map_to_list.
Qed.

Lemma entriesOf_lookup tokens svc categories :
  In (svc, categories) (entriesOf env tokens)
  <-> filtersOf env tokens !! svc = Some categories.
Proof.
  rewrite <- list_elem_of_In, (entriesOf_perm tokens).
  apply elem_of_map_to_list.
Qed.

Lemma entriesOf_Forall (P : string * list string -> Prop) tokens :
  Forall P (entriesOf env tokens)
  <-> (forall svc categories,
         filtersOf env tokens !! svc = Some categories -> P (svc, categories)).
Proof.
  rewrite Forall_forall. split.
  - intros H svc categories Hl.
    by apply H, list_elem_of_In, entriesOf_lookup.
  - intros H [svc categories] Hin.
    by apply H, entriesOf_lookup, list_elem_of_In.
Qed.

End Range.

Lemma env0_ok : EnvOK env0.
Proof. by repeat split. Qed.

(** ** The driver *)

(** C5. [Register] returns [nil] exactly when every service of the filter
    map is in the catalog and its registration function returned [nil] (the
    common registration itself never fails); whenever it returns [nil], for
    any tokens and for none, the server holds the tool sets of the services
    followed by the region tools, which are therefore registered last and
    whatever was requested; when a service fails they are not registered. *)
Theorem common_tools_registered env s (tokens : list string) :
  EnvOK env ->
  (snd (Register env s tokens) = None
   <-> (forall svc categories,
          filtersOf env tokens !! svc = Some categories ->
          supported svc /\
          snd (registerService env [] svc categories) = None)) /\
  (snd (Register env s tokens) = None ->
   fst (Register env s tokens)
   = s ++ flat_map (fun e => activated env e.1 e.2) (entriesOf env tokens)
       ++ [RegionTools]) /\
  (snd (Register env s tokens) <> None ->
   ~ In RegionTools (registered env tokens)) /\
  (forall s', registerCommonTools s' = (s' ++ [RegionTools], None)).
Proof.
  intros Hok. rewrite Register_frame. unfold registered.
  rewrite !Register_unfold. simpl.
  pose proof (registerLoop_nil_iff env (entriesOf env tokens)) as Hiff.
  rewrite (entriesOf_Forall env Hok) in Hiff. unfold entryOK in Hiff.
  destruct (snd (registerLoop env [] (entriesOf env tokens))) as [err|] eqn:E.
  - split; [|split; [done|split; [|done]]].
    + simpl. rewrite <- Hiff. done.
    + intros _. simpl. apply registerLoop_no_common.
  - split; [|split; [|split; [|done]]].
    + simpl. by rewrite <- Hiff.
    + intros _. simpl. rewrite registerLoop_calls_ok; [done|].
      apply registerLoop_nil_iff, E.
    + done.
Qed.

Lemma common_tools_registered_witness :
  fst (Register env0 [] ["droplets:sizes"])
  = [] ++ flat_map (fun e => activated env0 e.1 e.2)
            (entriesOf env0 ["droplets:sizes"]) ++ [RegionTools] /\
  fst (Register env0 [] []) 
  = [] ++ flat_map (fun e => activated env0 e.1 e.2) (entriesOf env0 [])
       ++ [RegionTools].
Proof.
  split.
  - apply (common_tools_registered env0 [] ["droplets:sizes"] env0_ok).
    reflexivity.
  - apply (common_tools_registered env0 [] [] env0_ok). reflexivity.
Defined.

(** C6. Every tool set is handed to [AddTools] at most once in a call of
    [Register], whatever the tokens are: a service repeated in the tokens has
    one entry in the filter map, a category repeated or covered by ["all"]
    opens a gate once, and no tool set stands behind two gates. *)
Theorem activation_at_most_once env s (tokens : list string) :
  EnvOK env ->
  fst (Register env s tokens) = s ++ registered env tokens /\
  NoDup (registered env tokens) /\
  registered env0 ["droplets:basic"; "droplets:basic"]
  = [DropletTool; RegionTools] /\
  registered env0 ["droplets:basic"; "droplets:all"]
  = [ DropletTool; DropletActionsTool; ImageTool; ImageActionsTool;
      SizesTool; RegionTools ].
Proof.
  intros Hok. split; [by rewrite Register_frame|]. split; [|by vm_compute].
  unfold registered. rewrite Register_unfold.
  pose proof (registerLoop_NoDup env _ (entriesOf_NoDup env Hok tokens)) as Hnd.
  destruct (snd (registerLoop env [] (entriesOf env tokens))); [done|].
  simpl. apply NoDup_app. split; [done|]. split; [|apply NoDup_singleton].
  intros t Ht ->%list_elem_of_singleton.
  by apply list_elem_of_In, registerLoop_no_common in Ht.
Qed.

Lemma activation_at_most_once_witness :
  NoDup (registered env0 ["droplets:basic"; "droplets"; "droplets:all"]).
Proof.
  apply (activation_at_most_once env0 []
           ["droplets:basic"; "droplets"; "droplets:all"] env0_ok).
Defined.

(** ** Tokens and the filter map *)

Section Tokens.

Implicit Types (m : gmap string (list string)) (toks : list string).

Lemma parseStep_token m (tok : string) :
  parseStep m tok
  = match tokenCategory tok with
    | None =>
        match m !! tok with Some _ => m | None => <[tok := ["basic"]]> m end
    | Some c =>
        if String.eqb c "" then m
        else <[tokenService tok :=
                 default [] (m !! tokenService tok) ++ [c]]> m
    end.
Proof.
  unfold parseStep, tokenCategory, tokenService.
  destruct (Index tok colon =? -1)%Z; simpl; [done|].
  by destruct (String.eqb _ "").
Qed.

Lemma tokenService_plain (tok : string) :
  tokenCategory tok = None -> tokenService tok = tok.
Proof.
  unfold tokenCategory, tokenService.
  by destruct (Index tok colon =? -1)%Z.
Qed.

Lemma parseStep_mono m (tok k : string) :
  is_Some (m !! k) -> is_Some (parseStep m tok !! k).
Proof.
  intros Hk. rewrite parseStep_token.
  destruct (tokenCategory tok) as [c|].
  - destruct (String.eqb c ""); [done|].
    rewrite lookup_insert. by case_decide.
  - destruct (m !! tok); [done|]. rewrite lookup_insert. by case_decide.
Qed.

Lemma parseStep_adds m (tok : string) :
  tokenCategory tok <> Some "" ->
  is_Some (parseStep m tok !! tokenService tok).
Proof.
  intros Hc. rewrite parseStep_token.
  destruct (tokenCategory tok) as [c|] eqn:E.
  - destruct (String.eqb_spec c "") as [->|_]; [done|].
    by rewrite lookup_insert_eq.
  - rewrite (tokenService_plain _ E).
    destruct (m !! tok) eqn:Hl; [by rewrite Hl|by rewrite lookup_insert_eq].
Qed.

Lemma foldl_parseStep_mono m toks (k : string) :
  is_Some (m !! k) -> is_Some (foldl parseStep m toks !! k).
Proof.
  revert m. induction toks as [|t rest IH]; intros m Hk; [done|].
  simpl. by apply IH, parseStep_mono.
Qed.

(** A token that names a service, without category or with a non-empty one,
    leaves an entry for that service in the filter map. *)
Lemma token_requested toks (tok : string) :
  In tok toks -> tokenCategory tok <> Some "" ->
  is_Some (parseServiceFilters toks !! tokenService tok).
Proof.
  unfold parseServiceFilters. generalize (∅ : gmap string (list string)).
  induction toks as [|t rest IH]; intros m Hin Hc; [done|].
  simpl. destruct Hin as [->|Hin]; [|by apply IH].
  by apply foldl_parseStep_mono, parseStep_adds.
Qed.

(** The tokens [svc:c] of a category list accumulate its non-empty
    categories under [svc]. *)
Lemma foldl_parseStep_tokensFor m (svc : string) (categories : list string) :
  no_colon svc ->
  foldl parseStep m (tokensFor svc categories)
  = match filter (fun c => c <> "") categories with
    | [] => m
    | cs => <[svc := default [] (m !! svc) ++ cs]> m
    end.
Proof.
  intros Hsvc. revert m.
  induction categories as [|c rest IH]; intros m; [done|].
  simpl. rewrite parseStep_category, IH by done.
  destruct (String.eqb_spec c "") as [->|Hc].
  - by rewrite filter_cons_False by (by intros ?).
  - rewrite filter_cons_True by done.
    rewrite lookup_insert_eq. simpl.
    destruct (filter (fun c => c <> "") rest) as [|c' cs]; [done|].
    by rewrite insert_insert_eq, <- app_assoc.
Qed.

(** Tokens without separator leave ["basic"] under each of them. *)
Lemma parse_names_lookup toks (k : string) :
  Forall no_colon toks ->
  parseServiceFilters toks !! k
  = if bool_decide (k ∈ toks) then Some ["basic"] else None.
Proof.
  induction toks as [|t rest IH] using rev_ind; intros Hall; [done|].
  apply Forall_app in Hall as [Hrest Ht]. rewrite Forall_singleton in Ht.
  rewrite parse_snoc, parseStep_plain by done. specialize (IH Hrest).
  destruct (decide (k = t)) as [->|Hne].
  - rewrite (bool_decide_eq_true_2 (t ∈ rest ++ [t]))
      by (apply elem_of_app; right; by apply list_elem_of_singleton).
    destruct (parseServiceFilters rest !! t) eqn:E.
    + rewrite E. by case_bool_decide.
    + by rewrite lookup_insert_eq.
  - assert (Hk : parseServiceFilters rest !! k
                 = if bool_decide (k ∈ rest ++ [t])
                   then Some ["basic"] else None).
    { rewrite IH. apply (f_equal (fun b : bool =>
                                    if b then Some ["basic"] else None)).
      apply bool_decide_ext. rewrite elem_of_app, list_elem_of_singleton.
      tauto. }
    destruct (parseServiceFilters rest !! t); [done|].
    by rewrite lookup_insert_ne.
Qed.

Lemma parse_names_perm toks1 toks2 :
  Forall no_colon toks1 -> toks1 ≡ₚ toks2 ->
  parseServiceFilters toks1 = parseServiceFilters toks2.
Proof.
  intros Hall Hperm. apply map_eq. intros k.
  rewrite !parse_names_lookup; [|by rewrite <- Hperm|done].
  apply (f_equal (fun b : bool => if b then Some ["basic"] else None)).
  apply bool_decide_ext. by rewrite Hperm.
Qed.

End Tokens.

(** ** Unrecognised categories *)

Section Unrecognised.

Lemma subGated_facts (svc : string) :
  In svc subGated ->
  no_colon svc /\ In svc serviceNames /\ svc <> "apps" /\
  ungatedTools svc = [].
Proof.
  simpl. intros [<-|[<-|[<-|[<-|[<-|[<-|[]]]]]]];
    (split; [reflexivity|split; [simpl; tauto|split; done]]).
Qed.

Lemma activated_unmatched env (svc : string) (categories : list string) :
  In svc subGated ->
  (forall c, In c categories -> ~ In c (gateNames svc) /\ c <> "all") ->
  activated env svc categories = [].
Proof.
  intros Hsub Hcats.
  destruct (subGated_facts svc Hsub) as (_ & Hin & Hne & Hungated).
  unfold activated. rewrite (registerService_table _ _ _ _ Hin Hne).
  simpl. rewrite Hungated, gated_none; [done|].
  intros n Hn. apply hasCategory_false_iff. split.
  - intros Hc. destruct (Hcats n Hc) as [Hno _]. by apply Hno.
  - intros Hall. by destruct (Hcats "all" Hall) as [_ Hno].
Qed.

Lemma effectiveTokens_nonempty env (tokens : list string) :
  tokens <> [] -> effectiveTokens env tokens = tokens.
Proof. by destruct tokens. Qed.

End Unrecognised.

(** C10. For a service with category gates and a non-empty category list
    none of whose entries is ["all"] or a category name tested by the gates
    of that service (["basic"] is one of them), [Register] called with the
    tokens [svc:c] returns [nil] having registered the common tools only,
    and the registration function of the service activates nothing. More
    generally, whenever the filter map holds such a list for the service, no
    tool set of the service is registered. *)
Theorem unrecognised_categories_ignored env s (svc : string)
    (categories : list string) :
  EnvOK env -> In svc subGated -> categories <> [] ->
  (forall c, In c categories -> ~ In c (gateNames svc) /\ c <> "all") ->
  Register env s (tokensFor svc categories) = (s ++ [RegionTools], None) /\
  registerService env s svc categories = (s, None) /\
  (forall tokens,
     filtersOf env tokens !! svc = Some categories ->
     forall t, In t (registered env tokens) -> owner t <> Some svc).
Proof.
  intros Hok Hsub Hne Hcats.
  destruct (subGated_facts svc Hsub) as (Hsvc & Hin & Hnapps & _).
  split; [|split].
  - rewrite Register_unfold.
    assert (Hentries : entriesOf env (tokensFor svc categories) = [] \/
              exists cs, entriesOf env (tokensFor svc categories) = [(svc, cs)]
                         /\ forall c, In c cs -> In c categories).
    { pose proof (entriesOf_perm env Hok (tokensFor svc categories)) as Hperm.
      revert Hperm. unfold filtersOf.
      rewrite effectiveTokens_nonempty by (by destruct categories).
      unfold parseServiceFilters.
      rewrite foldl_parseStep_tokensFor by done.
      destruct (filter (fun c => c <> "") categories) as [|c cs] eqn:E.
      - rewrite map_to_list_empty. intros ->%Permutation_nil_r. by left.
      - rewrite lookup_empty, insert_empty, map_to_list_singleton.
        intros ->%Permutation_singleton_r. right. eexists. split; [done|].
        intros c' Hc'. rewrite <- E in Hc'.
        apply list_elem_of_In, list_elem_of_filter in Hc' as [_ Hc'].
        by apply list_elem_of_In. }
    destruct Hentries as [->|(cs & -> & Hcs)]; [done|].
    rewrite registerLoop_cons.
    destruct (proj2 (supported_iff svc) Hin) as [d ->].
    rewrite registerService_ok by done.
    rewrite activated_unmatched; [done|done|].
    intros c Hc. by apply Hcats, Hcs.
  - rewrite registerService_frame, registerService_ok by done.
    by rewrite activated_unmatched, app_nil_r.
  - intros tokens Hl t Ht Hown. unfold registered in Ht.
    rewrite Register_unfold in Ht.
    assert (Hloop : In t (fst (registerLoop env [] (entriesOf env tokens)))).
    { destruct (snd (registerLoop env [] (entriesOf env tokens)));
        [done|].
      simpl in Ht. apply in_app_or in Ht as [Ht|[<-|[]]]; done. }
    apply registerLoop_calls_in in Hloop as ([svc' cs] & He & Hact).
    pose proof (activated_owner _ _ _ _ Hact) as [Hown' _].
    simpl in Hown', Hact. assert (svc' = svc) as -> by congruence.
    apply (entriesOf_lookup env Hok) in He.
    assert (cs = categories) as -> by congruence.
    by rewrite activated_unmatched in Hact.
Qed.

Lemma unrecognised_categories_ignored_witness :
  Register env0 [] (tokensFor "droplets" ["bogus"]) = ([RegionTools], None) /\
  registerService env0 [] "droplets" ["bogus"] = ([], None).
Proof.
  destruct (unrecognised_categories_ignored env0 [] "droplets" ["bogus"])
    as (Hreg & Hsvc & _);
    [apply env0_ok|simpl; tauto|discriminate| |by split].
  intros c [<-|[]]. split; [|discriminate].
  simpl. intros [H|[H|[H|[H|[]]]]]; discriminate.
Defined.

(** ** Unknown services *)

Lemma unsupportedError_names env (bad : string) :
  rangeNames env ≡ₚ serviceNames ->
  Contains (unsupportedError env bad) bad /\
  (forall k, In k serviceNames -> Contains (unsupportedError env bad) k).
Proof.
  intros Hperm. unfold unsupportedError, setToString. split.
  - apply Contains_refl_mid.
  - intros k Hk. do 3 apply Contains_prefix. apply Join_Contains.
    apply list_elem_of_In. rewrite Hperm. by apply list_elem_of_In.
Qed.

(** C4, counterexample. The token ["bogus:"] names a service that is not in
    the catalog, and [Register] returns [nil]: the parser drops the token, so
    the driver never sees the service. *)
Lemma unknown_service_with_empty_category_accepted :
  In "bogus:" ["bogus:"] /\ tokenService "bogus:" = "bogus" /\
  supportedServices !! "bogus" = None /\
  Register env0 [] ["bogus:"] = ([RegionTools], None).
Proof. split; [simpl; tauto|]. by repeat split. Qed.

(** Where the loop stops: at the first entry that is not in the catalog or
    whose registration fails; the entries before it were registered, and the
    error says which of the two it was. *)
Lemma registerLoop_stops_at env (entries : list (string * list string))
    (err : string) :
  snd (registerLoop env [] entries) = Some err ->
  exists pre e post,
    entries = pre ++ e :: post /\ Forall (entryOK env) pre /\
    fst (registerLoop env [] entries)
    = flat_map (fun e => activated env e.1 e.2) pre /\
    ((supportedServices !! e.1 = None /\ err = unsupportedError env e.1) \/
     (e.1 = "apps" /\
      exists ce, NewAppPlatformTool env = Some ce /\ err = appsError ce)).
Proof.
  induction entries as [|[svc categories] rest IH]; [done|].
  rewrite registerLoop_cons.
  destruct (supportedServices !! svc) as [d|] eqn:Hsvc.
  - destruct (snd (registerService env [] svc categories)) as [e'|] eqn:E.
    + apply registerService_error in E as (-> & ce & Hce & ->).
      simpl. intros [= <-]. exists [], ("apps", categories), rest.
      split; [done|]. split; [constructor|]. split.
      * unfold activated. by rewrite registerService_apps, Hce.
      * right. split; [done|]. by exists ce.
    + rewrite registerLoop_frame. simpl. intros Herr.
      destruct (IH Herr) as (pre & e & post & -> & Hpre & Hfst & Hkind).
      exists ((svc, categories) :: pre), e, post.
      split; [done|]. split; [|split; [|done]].
      * constructor; [|done]. split; [by eexists|done].
      * simpl. by rewrite Hfst.
  - simpl. intros [= <-]. exists [], (svc, categories), rest.
    split; [done|]. split; [constructor|]. split; [done|]. by left.
Qed.

(** C4, amended. When some token, at any position, names a service outside
    the catalog and has no separator or a non-empty category, [Register]
    returns an error. It stops at the first entry, in the order of the range
    over the filter map, that is outside the catalog or whose registration
    fails: the entries before it, none of them the unknown service, are the
    only ones registered, and the common tools are not. The error is the
    unknown-service error of that entry, whose message contains the name of
    its service and every name of the catalog, or, when that entry is apps,
    the construction error of the apps tool; it is the unknown-service error
    whenever the apps constructor succeeds or apps is not requested. *)
Theorem unknown_service_rejected env s (tokens : list string) (tok : string) :
  EnvOK env -> In tok tokens -> tokenCategory tok <> Some "" ->
  supportedServices !! tokenService tok = None ->
  exists pre e post err,
    entriesOf env tokens = pre ++ e :: post /\
    Forall (entryOK env) pre /\
    ~ In (tokenService tok) pre.*1 /\
    Register env s tokens
    = (s ++ flat_map (fun e => activated env e.1 e.2) pre, Some err) /\
    ~ In RegionTools (registered env tokens) /\
    ((supportedServices !! e.1 = None /\
      err = unsupportedError env e.1 /\
      Contains err e.1 /\
      (forall k, In k serviceNames -> Contains err k)) \/
     (e.1 = "apps" /\
      exists ce, NewAppPlatformTool env = Some ce /\ err = appsError ce)) /\
    (NewAppPlatformTool env = None \/
     parseServiceFilters tokens !! "apps" = None ->
     supportedServices !! e.1 = None).
Proof.
  intros Hok Hin Hcat Hunknown.
  assert (Hne : tokens <> []) by (by destruct tokens).
  assert (Hfilters : filtersOf env tokens = parseServiceFilters tokens)
    by (unfold filtersOf; by rewrite effectiveTokens_nonempty).
  destruct (token_requested tokens tok Hin Hcat) as [cs Hcs].
  assert (Hex : Exists (fun e => supportedServices !! e.1 = None)
                  (entriesOf env tokens)).
  { apply Exists_exists. exists (tokenService tok, cs). split; [|done].
    apply list_elem_of_In, (entriesOf_lookup env Hok). by rewrite Hfilters. }
  assert (Herr : exists err,
             snd (registerLoop env [] (entriesOf env tokens)) = Some err).
  { destruct (snd (registerLoop env [] (entriesOf env tokens))) as [err|] eqn:E;
      [by exists err|].
    apply registerLoop_nil_iff in E. rewrite Forall_forall in E.
    apply Exists_exists in Hex as (e & He & Hno).
    destruct (E e He) as [[d Hd] _]. congruence. }
  destruct Herr as [err Herr].
  destruct (registerLoop_stops_at env _ err Herr)
    as (pre & e & post & Hsplit & Hpre & Hfst & Hkind).
  exists pre, e, post, err.
  split; [done|]. split; [done|]. split; [|split; [|split; [|split]]].
  - intros Hk. apply list_elem_of_In, list_elem_of_fmap in Hk
      as ([svc cs'] & Heq & He). simpl in Heq. subst svc.
    rewrite Forall_forall in Hpre. destruct (Hpre _ He) as [[d Hd] _].
    simpl in Hd. congruence.
  - by rewrite Register_unfold, Herr, Hfst.
  - unfold registered. rewrite Register_unfold, Herr. simpl.
    apply registerLoop_no_common.
  - destruct Hkind as [[Hno ->]|Happs]; [left|by right].
    split; [done|]. split; [done|].
    apply unsupportedError_names. by destruct Hok as (_ & _ & ?).
  - intros Happs. destruct Hkind as [[Hno _]|(Heq & ce & Hce & _)]; [done|].
    destruct Happs as [Hnone|Hnone]; [congruence|]. exfalso.
    assert (He : In e (entriesOf env tokens))
      by (rewrite Hsplit; apply in_or_app; right; by left).
    destruct e as [svc cs']. simpl in Heq. subst svc.
    apply (entriesOf_lookup env Hok) in He. congruence.
Qed.

Lemma unknown_service_rejected_witness :
  exists pre e post err,
    entriesOf env0 ["droplets:all"; "bogus:all"; "doks"] = pre ++ e :: post /\
    Forall (entryOK env0) pre /\
    ~ In (tokenService "bogus:all") pre.*1 /\
    Register env0 [] ["droplets:all"; "bogus:all"; "doks"]
    = ([] ++ flat_map (fun e => activated env0 e.1 e.2) pre, Some err) /\
    ~ In RegionTools (registered env0 ["droplets:all"; "bogus:all"; "doks"]) /\
    ((supportedServices !! e.1 = None /\
      err = unsupportedError env0 e.1 /\
      Contains err e.1 /\
      (forall k, In k serviceNames -> Contains err k)) \/
     (e.1 = "apps" /\
      exists ce, NewAppPlatformTool env0 = Some ce /\ err = appsError ce)) /\
    (NewAppPlatformTool env0 = None \/
     parseServiceFilters ["droplets:all"; "bogus:all"; "doks"] !! "apps" = None ->
     supportedServices !! e.1 = None).
Proof.
  apply (unknown_service_rejected env0 []
           ["droplets:all"; "bogus:all"; "doks"] "bogus:all" env0_ok);
    [simpl; tauto|vm_compute; discriminate|vm_compute; reflexivity].
Defined.

(** ** No service requested *)

Section Default.

Lemma serviceNames_no_colon : Forall no_colon serviceNames.
Proof. repeat constructor. Qed.

Lemma serviceNames_keys :
  ((fun k : string => (k, ["basic"])) <$> serviceNames).*1 = serviceNames.
Proof. reflexivity. Qed.

Lemma serviceNames_NoDup : NoDup serviceNames.
Proof. apply (bool_decide_unpack _). by vm_compute. Qed.

Lemma parse_serviceNames :
  parseServiceFilters serviceNames
  = list_to_map ((fun k => (k, ["basic"])) <$> serviceNames).
Proof.
  apply map_eq. intros k.
  rewrite parse_names_lookup by apply serviceNames_no_colon.
  case_bool_decide as Hk; symmetry.
  - apply elem_of_list_to_map_1.
    + rewrite serviceNames_keys. apply serviceNames_NoDup.
    + apply list_elem_of_fmap. by exists k.
  - apply not_elem_of_list_to_map_1. by rewrite serviceNames_keys.
Qed.

(** Every listing of the catalog keys parses to the same filter map. *)
Lemma parse_listing (names : list string) :
  names ≡ₚ serviceNames ->
  parseServiceFilters names = parseServiceFilters serviceNames.
Proof.
  intros Hperm. symmetry.
  apply parse_names_perm; [apply serviceNames_no_colon|done].
Qed.

Lemma filtersOf_default env (names : list string) :
  EnvOK env -> names ≡ₚ serviceNames ->
  filtersOf env [] = parseServiceFilters serviceNames /\
  filtersOf env names = parseServiceFilters serviceNames.
Proof.
  intros (Hdefault & _ & _) Hperm. unfold filtersOf. split.
  - simpl. by apply parse_listing.
  - rewrite effectiveTokens_nonempty; [by apply parse_listing|].
    intros ->. by apply Permutation_nil in Hperm.
Qed.

Lemma entriesOf_default env :
  EnvOK env ->
  entriesOf env [] ≡ₚ (fun k => (k, ["basic"])) <$> serviceNames.
Proof.
  intros Hok. rewrite (entriesOf_perm env Hok).
  destruct (filtersOf_default env serviceNames Hok) as [-> _]; [done|].
  rewrite parse_serviceNames. apply map_to_list_to_map.
  rewrite serviceNames_keys. apply serviceNames_NoDup.
Qed.

Lemma basicTools_activated env :
  NewAppPlatformTool env = None ->
  flat_map (fun e => activated env e.1 e.2)
    ((fun k => (k, ["basic"])) <$> serviceNames)
  = basicTools.
Proof.
  intros Hok. unfold activated. simpl.
  rewrite registerService_apps, Hok. reflexivity.
Qed.

Lemma basicTools_cover (svc : string) :
  In svc serviceNames -> exists t, In t basicTools /\ owner t = Some svc.
Proof.
  simpl. intros [<-|[<-|[<-|[<-|[<-|[<-|[<-|[<-|[<-|[]]]]]]]]]];
    [ exists AppPlatformTool | exists LoadBalancersTool | exists DropletTool
    | exists AccountTools | exists SpacesKeysTool | exists ClusterTool
    | exists OneClickTool | exists UptimeTool | exists DoksTool ];
    (split; [simpl; tauto|reflexivity]).
Qed.

End Default.

Lemma appsFirst_perm (entries : list (string * list string)) :
  appsFirst entries ≡ₚ entries.
Proof. apply filter_app_complement. Qed.

Lemma envFailFirst_ok : EnvOK envFailFirst.
Proof.
  split; [done|]. split; [|done]. intros m. simpl. apply appsFirst_perm.
Qed.

(** C8, counterexample. When the apps tool cannot be constructed and the
    range over the filter map visits apps first, [Register] without tokens
    stops with the construction error and no tool at all on the server;
    with another order of the range the call with the nine names listed
    stops with the same error and five tool sets on the server. *)
Lemma zero_tokens_no_tools_on_constructor_error :
  EnvOK envFailFirst /\ EnvOK envFail /\
  NewAppPlatformTool envFailFirst = NewAppPlatformTool envFail /\
  Register envFailFirst [] [] = ([], Some (appsError "no schema")) /\
  Register envFail [] serviceNames
  = ([ SpacesKeysTool; OneClickTool; UptimeTool; UptimeCheckAlertTool;
       AccountTools ],
     Some (appsError "no schema")).
Proof.
  split; [apply envFailFirst_ok|]. split; [by repeat split|].
  split; [done|]. split; by vm_compute.
Qed.

(** C8, amended. [Register] without tokens and [Register] with the nine
    catalog keys listed once each, in any order and without category, build
    the same filter map and, run in the same environment, return the same
    result. The run without tokens returns [nil] exactly when the apps tool
    can be constructed and otherwise returns the construction error of the
    apps tool; when it returns [nil] it has registered exactly the basic
    tool sets of the nine services and the common tools, at least one tool
    set for every service, and so has a run with the names listed, in
    whatever order the maps are ranged over. *)
Theorem zero_tokens_default env s (names : list string) :
  EnvOK env -> names ≡ₚ serviceNames ->
  filtersOf env [] = filtersOf env names /\
  Register env s [] = Register env s names /\
  snd (Register env s []) = (appsError <$> NewAppPlatformTool env) /\
  (snd (Register env s []) = None ->
   registered env [] ≡ₚ basicTools ++ [RegionTools] /\
   forall svc, In svc serviceNames ->
     exists t, In t (registered env []) /\ owner t = Some svc) /\
  (forall env', EnvOK env' ->
     snd (Register env s []) = None -> snd (Register env' s names) = None ->
     fst (Register env s []) ≡ₚ fst (Register env' s names)).
Proof.
  intros Hok Hperm.
  destruct (filtersOf_default env names Hok Hperm) as [Hnone Hnames].
  assert (Hentries : entriesOf env [] = entriesOf env names)
    by (unfold entriesOf; by rewrite Hnone, Hnames).
  assert (Herr : forall env1 s1 toks, EnvOK env1 ->
            entriesOf env1 toks ≡ₚ (fun k => (k, ["basic"])) <$> serviceNames ->
            snd (Register env1 s1 toks)
            = (appsError <$> NewAppPlatformTool env1)).
  { intros env1 s1 toks Hok1 He. rewrite Register_unfold.
    pose proof (registerLoop_supported env1 (entriesOf env1 toks)) as Hl.
    rewrite bool_decide_eq_true_2 in Hl.
    - rewrite Hl.
      + by destruct (NewAppPlatformTool env1).
      + rewrite He. apply Forall_fmap, Forall_forall.
        intros k Hk. apply supported_iff. by apply list_elem_of_In.
    - rewrite He. apply (bool_decide_unpack _). by vm_compute. }
  assert (Hreg : forall env1 s1 toks, EnvOK env1 ->
            entriesOf env1 toks ≡ₚ (fun k => (k, ["basic"])) <$> serviceNames ->
            snd (Register env1 s1 toks) = None ->
            fst (Register env1 s1 toks) ≡ₚ s1 ++ basicTools ++ [RegionTools]).
  { intros env1 s1 toks Hok1 He Hnil.
    pose proof (Herr env1 s1 toks Hok1 He) as Hcons. rewrite Hnil in Hcons.
    assert (Happs : NewAppPlatformTool env1 = None)
      by (by destruct (NewAppPlatformTool env1)).
    rewrite (Register_nil_shape env1 s1 toks Hnil).
    by rewrite He, (basicTools_activated env1 Happs). }
  pose proof (entriesOf_default env Hok) as Hdefault.
  split; [by rewrite Hnone, Hnames|]. split; [|split; [|split]].
  - by rewrite !Register_unfold, Hentries.
  - by apply Herr.
  - intros Hnil.
    assert (Hr : registered env [] ≡ₚ basicTools ++ [RegionTools]).
    { apply (Hreg env [] [] Hok Hdefault).
      by rewrite (Herr env [] [] Hok Hdefault), <- (Herr env s [] Hok Hdefault). }
    split; [done|]. intros svc Hsvc.
    destruct (basicTools_cover svc Hsvc) as (t & Ht & Hown).
    exists t. split; [|done]. apply list_elem_of_In. rewrite Hr.
    apply elem_of_app. left. by apply list_elem_of_In.
  - intros env' Hok' Hnil Hnil'.
    rewrite (Hreg env s [] Hok Hdefault Hnil).
    symmetry. apply Hreg; [done| |done].
    destruct (filtersOf_default env' names Hok' Hperm) as [Hnone' Hnames'].
    rewrite <- (entriesOf_default env' Hok').
    unfold entriesOf. by rewrite Hnone', Hnames'.
Qed.

Lemma zero_tokens_default_witness :
  Register env0 [] []
  = Register env0 []
      [ "networking"; "apps"; "droplets"; "accounts"; "spaces"; "databases";
        "marketplace"; "insights"; "doks" ] /\
  snd (Register env0 [] []) = None.
Proof.
  destruct (zero_tokens_default env0 []
              [ "networking"; "apps"; "droplets"; "accounts"; "spaces";
                "databases"; "marketplace"; "insights"; "doks" ] env0_ok)
    as (_ & Hsame & Herr & _); [apply perm_swap|].
  split; [exact Hsame|exact Herr].
Defined.

(** The failing run of the default: the services ranged over before apps
    stay registered, the common tools are not added. *)
Example zero_tokens_apps_failure :
  Register envFail [] []
  = ([ SpacesKeysTool; OneClickTool; UptimeTool; UptimeCheckAlertTool;
       AccountTools ],
     Some (appsError "no schema")).
Proof. by vm_compute. Qed.

(** * Further properties *)

(** ** Splitting a token *)

Section Splitting.

Lemma Index_slice_to (s : string) (sep : ascii) :
  Index (slice_to s (Z.to_nat (Index s sep))) sep = (-1)%Z.
Proof.
  induction s as [|a r IH]; [done|]. simpl Index at 2.
  destruct (Ascii.eqb a sep) eqn:Ea; [done|].
  destruct (Index_range r sep) as [E|Hr].
  - by rewrite E.
  - destruct (Z.eqb_spec (Index r sep) (-1)) as [E|_]; [lia|].
    replace (Z.to_nat (Index r sep + 1)) with (S (Z.to_nat (Index r sep)))
      by lia.
    simpl. by rewrite Ea, IH.
Qed.

Lemma split_at_Index (s : string) (sep : ascii) :
  Index s sep <> (-1)%Z ->
  s = slice_to s (Z.to_nat (Index s sep))
      +:+ String sep (slice_from s (Z.to_nat (Index s sep + 1))).
Proof.
  induction s as [|a r IH]; [done|]. simpl Index.
  destruct (Ascii.eqb_spec a sep) as [->|Ha]; [done|].
  destruct (Index_range r sep) as [E|Hr].
  - by rewrite E.
  - destruct (Z.eqb_spec (Index r sep) (-1)) as [E|Hne]; [lia|]. intros _.
    replace (Z.to_nat (Index r sep + 1 + 1))
      with (S (Z.to_nat (Index r sep + 1))) by lia.
    replace (Z.to_nat (Index r sep + 1)) with (S (Z.to_nat (Index r sep)))
      at 1 by lia.
    simpl. rewrite append_cons. f_equal. by apply IH.
Qed.

Lemma tokenService_no_colon (tok : string) : no_colon (tokenService tok).
Proof.
  unfold tokenService, no_colon.
  destruct (Z.eqb_spec (Index tok colon) (-1)) as [E|_]; [done|].
  apply Index_slice_to.
Qed.

Lemma token_of_parts (svc c : string) :
  no_colon svc ->
  tokenService (svc +:+ ":" +:+ c) = svc /\
  tokenCategory (svc +:+ ":" +:+ c) = Some c.
Proof.
  intros Hsvc. unfold tokenService, tokenCategory.
  change (":" +:+ c) with (String colon c).
  rewrite (Index_app_sep _ _ _ Hsvc).
  destruct (Z.eqb_spec (Z.of_nat (String.length svc)) (-1)); [lia|].
  replace (Z.to_nat (Z.of_nat (String.length svc) + 1))
    with (S (String.length svc)) by lia.
  by rewrite Nat2Z.id, slice_to_app, slice_from_app_S.
Qed.

End Splitting.

(** X1. The parser splits a token at its first separator and nowhere else:
    a token with a separator is its service, the separator and its category
    put together again, and its service holds no separator; conversely the
    token built from a separator-free service and any category, separators
    in the category included, splits into exactly these two. *)
Theorem token_split_roundtrip (tok svc c : string) :
  (tokenCategory tok = Some c ->
   tok = tokenService tok +:+ ":" +:+ c /\ no_colon (tokenService tok)) /\
  (tokenCategory tok = None -> tokenService tok = tok /\ no_colon tok) /\
  (no_colon svc ->
   tokenService (svc +:+ ":" +:+ c) = svc /\
   tokenCategory (svc +:+ ":" +:+ c) = Some c /\
   forall m, parseStep m (svc +:+ ":" +:+ c)
             = if String.eqb c "" then m
               else <[svc := default [] (m !! svc) ++ [c]]> m).
Proof.
  split; [|split].
  - intros Hc. split; [|apply tokenService_no_colon].
    revert Hc. unfold tokenCategory, tokenService.
    destruct (Z.eqb_spec (Index tok colon) (-1)) as [E|Hne]; [done|].
    intros [= <-]. by apply split_at_Index.
  - intros Hc. pose proof (tokenService_plain tok Hc) as Heq.
    split; [done|]. rewrite <- Heq. apply tokenService_no_colon.
  - intros Hsvc. destruct (token_of_parts svc c Hsvc) as [Hs Hcat].
    split; [done|]. split; [done|].
    intros m. by apply parseStep_category.
Qed.

Lemma token_split_roundtrip_witness :
  "databases:a:b" = tokenService "databases:a:b" +:+ ":" +:+ "a:b" /\
  tokenService ("spaces" +:+ ":" +:+ "cdn") = "spaces".
Proof.
  destruct (token_split_roundtrip "databases:a:b" "spaces" "a:b")
    as (Hsplit & _ & _).
  destruct (token_split_roundtrip "x" "spaces" "cdn") as (_ & _ & Hjoin).
  split; [apply Hsplit; reflexivity|apply Hjoin; reflexivity].
Defined.

(** ** The filter map, service by service *)

Section PerService.

Implicit Types (m : gmap string (list string)) (toks : list string)
  (o : option (list string)).

Lemma parseStep_lookup m (tok k : string) :
  parseStep m tok !! k
  = if decide (tokenService tok = k) then stepAt (m !! k) tok else m !! k.
Proof.
  rewrite parseStep_token. unfold stepAt.
  destruct (tokenCategory tok) as [c|] eqn:Hc.
  - destruct (String.eqb c ""); [by case_decide|].
    rewrite lookup_insert. case_decide; [by subst k|done].
  - rewrite (tokenService_plain tok Hc).
    destruct (m !! tok) as [cs|] eqn:Hl.
    + case_decide; [subst k; by rewrite Hl|done].
    + rewrite lookup_insert. case_decide; [subst k; by rewrite Hl|done].
Qed.

Lemma foldl_parseStep_lookup m toks (k : string) :
  foldl parseStep m toks !! k = foldl stepAt (m !! k) (tokensOf k toks).
Proof.
  revert m. induction toks as [|tok rest IH]; intros m; [done|].
  simpl. rewrite IH, parseStep_lookup. unfold tokensOf.
  rewrite filter_cons. by case_decide.
Qed.

Lemma stepAt_wellFormed o (tok : string) :
  wellFormedEntry o -> wellFormedEntry (stepAt o tok).
Proof.
  unfold stepAt. intros Ho. destruct (tokenCategory tok) as [c|].
  - destruct (String.eqb_spec c "") as [->|Hc]; [done|].
    destruct o as [cs|]; simpl in *.
    + destruct Ho as [_ Hall]. split; [by destruct cs|].
      apply Forall_app. split; [done|by constructor].
    + split; [done|by constructor].
  - destruct o as [cs|]; simpl in *; [done|].
    split; [done|]. by constructor.
Qed.

Lemma foldl_stepAt_wellFormed o toks :
  wellFormedEntry o -> wellFormedEntry (foldl stepAt o toks).
Proof.
  revert o. induction toks as [|tok rest IH]; intros o Ho; [done|].
  simpl. by apply IH, stepAt_wellFormed.
Qed.

Lemma stepAt_is_Some o (tok : string) :
  is_Some (stepAt o tok) <-> is_Some o \/ tokenCategory tok <> Some "".
Proof.
  unfold stepAt. destruct (tokenCategory tok) as [c|].
  - destruct (String.eqb_spec c "") as [->|Hc].
    + split; [by left|]. by intros [?|?].
    + split; [intros _; right; congruence|by eexists].
  - split; [by right|by eexists].
Qed.

Lemma foldl_stepAt_is_Some o toks :
  is_Some (foldl stepAt o toks)
  <-> is_Some o \/ exists tok, In tok toks /\ tokenCategory tok <> Some "".
Proof.
  revert o. induction toks as [|tok rest IH]; intros o; simpl.
  - split; [by left|]. by intros [?|(? & [] & _)].
  - rewrite IH, stepAt_is_Some. split.
    + intros [[?|?]|(t & ? & ?)]; [by left|right|right]; eauto.
    + intros [?|(t & [<-|?] & ?)]; [by left; left|by left; right|].
      right. eauto.
Qed.

End PerService.

Lemma Register_same_filters env s (tokens tokens' : list string) :
  tokens <> [] -> tokens' <> [] ->
  parseServiceFilters tokens = parseServiceFilters tokens' ->
  Register env s tokens = Register env s tokens'.
Proof.
  intros Hne Hne' Heq. rewrite !Register_unfold. unfold entriesOf, filtersOf.
  by rewrite !effectiveTokens_nonempty, Heq.
Qed.

(** X2. Every entry of the filter map is well formed, whatever the tokens
    are: its key holds no separator, its category list is not empty and no
    category in it is the empty string. *)
Theorem filter_map_well_formed (tokens : list string) (k : string)
    (cs : list string) :
  parseServiceFilters tokens !! k = Some cs ->
  no_colon k /\ cs <> [] /\ Forall (fun c => c <> "") cs.
Proof.
  unfold parseServiceFilters. rewrite foldl_parseStep_lookup, lookup_empty.
  intros Hcs. split.
  - assert (Hsome : is_Some (foldl stepAt None (tokensOf k tokens)))
      by (by eexists).
    apply foldl_stepAt_is_Some in Hsome as [[? [=]]|(tok & Hin & _)].
    apply list_elem_of_In, list_elem_of_filter in Hin as [<- _].
    apply tokenService_no_colon.
  - pose proof (foldl_stepAt_wellFormed None (tokensOf k tokens) I) as Hwf.
    by rewrite Hcs in Hwf.
Qed.

Lemma filter_map_well_formed_witness :
  no_colon "droplets" /\ ["basic"; "a:b"] <> [] /\
  Forall (fun c => c <> "") ["basic"; "a:b"].
Proof.
  apply (filter_map_well_formed ["droplets"; "droplets:"; "droplets:a:b"]).
  vm_compute. reflexivity.
Defined.

(** X3. A service has an entry in the filter map exactly when some token
    names it without separator or with a category that is not empty. *)
Theorem filter_map_domain (tokens : list string) (k : string) :
  is_Some (parseServiceFilters tokens !! k)
  <-> exists tok, In tok tokens /\ tokenService tok = k /\
                  tokenCategory tok <> Some "".
Proof.
  unfold parseServiceFilters. rewrite foldl_parseStep_lookup, lookup_empty.
  rewrite foldl_stepAt_is_Some. split.
  - intros [[? [=]]|(tok & Hin & Hc)]. exists tok.
    apply list_elem_of_In, list_elem_of_filter in Hin as [Hk Hin].
    split; [by apply list_elem_of_In|done].
  - intros (tok & Hin & Hk & Hc). right. exists tok. split; [|done].
    apply list_elem_of_In, list_elem_of_filter.
    split; [done|by apply list_elem_of_In].
Qed.

(** X4. The entry of a service is built from the tokens that name this
    service alone, taken in their order: tokens of other services, wherever
    they stand, do not change it. *)
Theorem filter_map_per_service (tokens : list string) (k : string) :
  parseServiceFilters tokens !! k = foldl stepAt None (tokensOf k tokens) /\
  (forall tokens',
     tokensOf k tokens' = tokensOf k tokens ->
     parseServiceFilters tokens' !! k = parseServiceFilters tokens !! k) /\
  parseServiceFilters (tokensOf k tokens) !! k
  = parseServiceFilters tokens !! k.
Proof.
  unfold parseServiceFilters. split; [|split].
  - by rewrite foldl_parseStep_lookup, lookup_empty.
  - intros tokens' Heq. by rewrite !foldl_parseStep_lookup, Heq.
  - rewrite !foldl_parseStep_lookup. f_equal. unfold tokensOf.
    induction tokens as [|tok rest IH]; [done|].
    rewrite filter_cons. case_decide as Hk; [|done].
    by rewrite filter_cons_True, IH.
Qed.

(** X5. Writing a service and its categories as tokens and parsing them
    gives the categories back, in their order, under that service alone. *)
Theorem tokensFor_roundtrip (svc : string) (categories : list string) :
  no_colon svc -> categories <> [] ->
  Forall (fun c => c <> "") categories ->
  parseServiceFilters (tokensFor svc categories) = {[ svc := categories ]}.
Proof.
  intros Hsvc Hne Hall. unfold parseServiceFilters.
  rewrite foldl_parseStep_tokensFor by done.
  assert (Hfilter : filter (fun c => c <> "") categories = categories).
  { clear Hne. induction Hall as [|c rest Hc _ IH]; [done|].
    by rewrite filter_cons_True, IH. }
  rewrite Hfilter. destruct categories as [|c rest]; [done|].
  by rewrite lookup_empty, insert_empty.
Qed.

Lemma tokensFor_roundtrip_witness :
  parseServiceFilters (tokensFor "networking" ["lb"; "dns"; "lb"])
  = {[ "networking" := ["lb"; "dns"; "lb"] ]}.
Proof.
  apply (tokensFor_roundtrip "networking" ["lb"; "dns"; "lb"]);
    [reflexivity|discriminate|].
  repeat constructor; discriminate.
Defined.

(** X6. For a service that has no entry yet, a token without category and
    the token with the category ["basic"] are interchangeable: the filter map
    is the same, whatever tokens follow, and so is the result of
    [Register]. *)
Theorem default_category_is_basic (pre post : list string) (svc : string) :
  no_colon svc -> parseServiceFilters pre !! svc = None ->
  parseServiceFilters (pre ++ [svc] ++ post)
  = parseServiceFilters (pre ++ [svc +:+ ":basic"] ++ post) /\
  (forall env s,
     Register env s (pre ++ [svc] ++ post)
     = Register env s (pre ++ [svc +:+ ":basic"] ++ post)).
Proof.
  intros Hsvc Hnone.
  assert (Heq : parseServiceFilters (pre ++ [svc] ++ post)
                = parseServiceFilters (pre ++ [svc +:+ ":basic"] ++ post)).
  { rewrite !parse_app. simpl.
    rewrite parseStep_plain, (parseStep_category _ svc "basic") by done.
    by rewrite Hnone. }
  split; [done|]. intros env s.
  apply Register_same_filters; [by destruct pre|by destruct pre|done].
Qed.

Lemma default_category_is_basic_witness :
  Register env0 [] (["doks:x"] ++ ["spaces"] ++ ["spaces:cdn"])
  = Register env0 [] (["doks:x"] ++ ["spaces" +:+ ":basic"] ++ ["spaces:cdn"]).
Proof.
  apply (default_category_is_basic ["doks:x"] ["spaces:cdn"] "spaces");
    [reflexivity|vm_compute; reflexivity].
Defined.

(** ** Category lists as sets *)

Section CategorySets.

Implicit Types (categories : list string) (table : list Gate).

Lemma hasCategory_incl categories categories' (x : string) :
  incl categories categories' ->
  hasCategory categories x = true -> hasCategory categories' x = true.
Proof.
  intros Hincl. rewrite !hasCategory_true_iff.
  intros [?|?]; [left|right]; by apply Hincl.
Qed.

Lemma hasCategory_ext categories categories' (x : string) :
  (forall c, In c categories <-> In c categories') ->
  hasCategory categories x = hasCategory categories' x.
Proof.
  intros Hsame. apply Bool.eq_true_iff_eq.
  split; apply hasCategory_incl; intros c; apply Hsame.
Qed.

Lemma fires_incl categories categories' (g : Gate) :
  incl categories categories' ->
  fires categories g = true -> fires categories' g = true.
Proof.
  intros Hincl. unfold fires. rewrite !existsb_exists.
  intros (n & Hn & Hhas). exists n. split; [done|].
  by apply (hasCategory_incl categories).
Qed.

Lemma gated_incl categories categories' table :
  incl categories categories' ->
  gated categories table `sublist_of` gated categories' table.
Proof.
  intros Hincl. induction table as [|g rest IH]; simpl; [constructor|].
  apply sublist_app; [|exact IH].
  destruct (fires categories g) eqn:E; [|apply sublist_nil_l].
  by rewrite (fires_incl _ _ _ Hincl E).
Qed.

Lemma gated_ext categories categories' table :
  (forall c, In c categories <-> In c categories') ->
  gated categories table = gated categories' table.
Proof.
  intros Hsame. unfold gated, fires.
  induction table as [|g rest IH]; simpl; [done|]. f_equal; [|exact IH].
  assert (Hex : existsb (hasCategory categories) g.1
                = existsb (hasCategory categories') g.1).
  { induction (g.1) as [|n ns IHn]; simpl; [done|].
    by rewrite (hasCategory_ext _ _ n Hsame), IHn. }
  by rewrite Hex.
Qed.

Lemma hasCategory_rename_other (from to n : string) categories :
  n <> from -> n <> to -> from <> "all" -> to <> "all" ->
  hasCategory (renameCategory from to categories) n
  = hasCategory categories n.
Proof.
  intros Hnf Hnt Hfa Hta. induction categories as [|c rest IH]; [done|].
  simpl. destruct (String.eqb_spec c from) as [->|Hcf].
  - destruct (String.eqb_spec to n); [congruence|].
    destruct (String.eqb_spec to "all"); [congruence|].
    destruct (String.eqb_spec from n); [congruence|].
    by destruct (String.eqb_spec from "all"); [congruence|].
  - by rewrite IH.
Qed.

Lemma hasCategory_rename_pair (from to : string) categories :
  from <> "all" -> to <> "all" ->
  hasCategory (renameCategory from to categories) from
  || hasCategory (renameCategory from to categories) to
  = hasCategory categories from || hasCategory categories to.
Proof.
  intros Hfa Hta. induction categories as [|c rest IH]; [done|].
  simpl. destruct (String.eqb_spec c from) as [->|Hcf].
  - destruct (String.eqb_spec to to) as [_|Hne]; [|done].
    simpl. by rewrite Bool.orb_true_r.
  - destruct (String.eqb_spec c from) as [Heq|_]; [done|].
    destruct (String.eqb_spec c "all") as [->|Hca]; [done|].
    destruct (String.eqb_spec c to) as [->|Hct];
      [simpl; by rewrite !Bool.orb_true_r|].
    exact IH.
Qed.

Lemma registerService_env env env' (s : MCPServer) (svc : string) categories :
  NewAppPlatformTool env = NewAppPlatformTool env' ->
  registerService env s svc categories = registerService env' s svc categories.
Proof.
  intros Heq. unfold registerService, registerAppTools. by rewrite Heq.
Qed.

End CategorySets.

(** X7. A registration function looks at its category list as a set: two
    lists with the same members, in any order and with any repetitions, lead
    to the same server and the same error, for every service name. *)
Theorem categories_as_set env s (svc : string)
    (categories categories' : list string) :
  (forall c, In c categories <-> In c categories') ->
  registerService env s svc categories = registerService env s svc categories'.
Proof.
  intros Hsame. destruct (decide (In svc serviceNames)) as [Hin|Hnot].
  - destruct (decide (svc = "apps")) as [->|Hne].
    + by rewrite !registerService_apps.
    + rewrite !(registerService_table _ _ _ _ Hin Hne).
      by rewrite (gated_ext _ _ _ Hsame).
  - by rewrite !registerService_unsupported.
Qed.

Lemma categories_as_set_witness :
  registerService env0 [] "databases" ["mysql"; "users"; "mysql"]
  = registerService env0 [] "databases" ["users"; "mysql"].
Proof.
  apply (categories_as_set env0 [] "databases").
  intros c. simpl. tauto.
Defined.

(** X8. Asking for more categories never takes a tool set away: when every
    category of one list occurs in another, what the registration function
    adds for the first is a subsequence of what it adds for the second. *)
Theorem more_categories_more_tools env (svc : string)
    (categories categories' : list string) :
  incl categories categories' ->
  activated env svc categories `sublist_of` activated env svc categories'.
Proof.
  intros Hincl. unfold activated.
  destruct (decide (In svc serviceNames)) as [Hin|Hnot].
  - destruct (decide (svc = "apps")) as [->|Hne].
    + by rewrite !registerService_apps.
    + rewrite !(registerService_table _ _ _ _ Hin Hne). simpl.
      apply sublist_app; [done|by apply gated_incl].
  - by rewrite !registerService_unsupported.
Qed.

Lemma more_categories_more_tools_witness :
  activated env0 "accounts" ["keys"]
  `sublist_of` activated env0 "accounts" ["billing"; "keys"; "info"].
Proof.
  apply (more_categories_more_tools env0 "accounts").
  intros c [<-|[]]. simpl. tauto.
Defined.

(** X9. In the five services whose first gate is [basic || name], the
    category [name] stands for ["basic"]: writing it in place of every
    ["basic"] of a category list changes nothing in what the registration
    function does. *)
Theorem basic_alias env s (svc alias : string) (categories : list string) :
  In (svc, alias) basicAlias ->
  registerService env s svc (renameCategory "basic" alias categories)
  = registerService env s svc categories.
Proof.
  simpl. intros [[= <- <-]|[[= <- <-]|[[= <- <-]|[[= <- <-]|[[= <- <-]|[]]]]]].
  - change (registerNetworkingTools s (renameCategory "basic" "lb" categories)
            = registerNetworkingTools s categories).
    unfold registerNetworkingTools.
    rewrite hasCategory_rename_pair by done.
    by rewrite !hasCategory_rename_other by done.
  - change (registerAccountTools s (renameCategory "basic" "info" categories)
            = registerAccountTools s categories).
    unfold registerAccountTools.
    rewrite hasCategory_rename_pair by done.
    by rewrite !hasCategory_rename_other by done.
  - change (registerSpacesTools s (renameCategory "basic" "keys" categories)
            = registerSpacesTools s categories).
    unfold registerSpacesTools.
    rewrite hasCategory_rename_pair by done.
    by rewrite !hasCategory_rename_other by done.
  - change (registerInsightsTools s
              (renameCategory "basic" "uptime" categories)
            = registerInsightsTools s categories).
    unfold registerInsightsTools.
    rewrite hasCategory_rename_pair by done.
    by rewrite !hasCategory_rename_other by done.
  - change (registerDatabasesTools s
              (renameCategory "basic" "cluster" categories)
            = registerDatabasesTools s categories).
    unfold registerDatabasesTools.
    rewrite hasCategory_rename_pair by done.
    by rewrite !hasCategory_rename_other by done.
Qed.

Lemma basic_alias_witness :
  registerService env0 [] "insights"
    (renameCategory "basic" "uptime" ["alerts"; "basic"])
  = registerService env0 [] "insights" ["alerts"; "basic"].
Proof.
  apply (basic_alias env0 [] "insights" "uptime"). simpl. tauto.
Defined.

(** X10. A registration function only appends to the server: the tool sets
    already there stay, in their order, in front of the new ones, which are
    pairwise distinct and all belong to the service. It can fail for apps
    alone, namely when the apps tool cannot be constructed; then it
    adds nothing and returns the constructor's error behind the prefix
    "failed to create apps tool: ". *)
Theorem registration_appends env s (svc : string) (categories : list string) :
  fst (registerService env s svc categories)
  = s ++ activated env svc categories /\
  NoDup (activated env svc categories) /\
  (forall t, In t (activated env svc categories) -> owner t = Some svc) /\
  (forall err,
     snd (registerService env s svc categories) = Some err ->
     svc = "apps" /\ activated env svc categories = [] /\
     exists e, NewAppPlatformTool env = Some e /\
               err = "failed to create apps tool: " +:+ e).
Proof.
  rewrite registerService_frame. simpl. split; [done|].
  split; [apply activated_NoDup|]. split.
  - intros t Ht. by apply activated_owner in Ht as [? _].
  - intros err Herr.
    apply registerService_error in Herr as (-> & e & He & ->).
    split; [done|]. split; [|by exists e].
    unfold activated. by rewrite registerService_apps, He.
Qed.

Lemma registration_appends_witness :
  fst (registerService envFail [DoksTool] "apps" ["all"]) = [DoksTool] ++ [] /\
  activated envFail "apps" ["all"] = [].
Proof.
  destruct (registration_appends envFail [DoksTool] "apps" ["all"])
    as (Hfst & _ & _ & Herr).
  destruct (Herr "failed to create apps tool: no schema") as (_ & Hnone & _);
    [reflexivity|].
  split; [|exact Hnone]. rewrite Hfst. by rewrite Hnone.
Defined.

Lemma filter_map_per_service_witness :
  parseServiceFilters ["apps"; "spaces:cdn"; "doks:x"; "spaces"] !! "spaces"
  = parseServiceFilters ["spaces:cdn"; "spaces"] !! "spaces".
Proof.
  destruct (filter_map_per_service ["spaces:cdn"; "spaces"] "spaces")
    as (_ & Hother & _).
  apply Hother. reflexivity.
Defined.

(** ** Errors of the driver *)

Section DriverErrors.

Implicit Types (s : MCPServer) (entries : list (string * list string)).

Lemma parse_key_iff (tokens : list string) (k : string) :
  is_Some (parseServiceFilters tokens !! k)
  <-> exists tok, In tok tokens /\ tokenService tok = k /\
                  tokenCategory tok <> Some "".
Proof.
  unfold parseServiceFilters. rewrite foldl_parseStep_lookup, lookup_empty.
  rewrite foldl_stepAt_is_Some. split.
  - intros [[? [=]]|(tok & Hin & Hc)]. exists tok.
    apply list_elem_of_In, list_elem_of_filter in Hin as [Hk Hin].
    split; [by apply list_elem_of_In|done].
  - intros (tok & Hin & Hk & Hc). right. exists tok. split; [|done].
    apply list_elem_of_In, list_elem_of_filter.
    split; [done|by apply list_elem_of_In].
Qed.

Lemma registerLoop_error_kinds env entries (err : string) :
  snd (registerLoop env [] entries) = Some err ->
  (exists bad, In bad entries.*1 /\ supportedServices !! bad = None /\
               err = unsupportedError env bad) \/
  (exists e, NewAppPlatformTool env = Some e /\ In "apps" entries.*1 /\
             err = appsError e).
Proof.
  induction entries as [|[svc categories] rest IH]; [done|].
  rewrite registerLoop_cons, fmap_cons. simpl.
  destruct (supportedServices !! svc) as [d|] eqn:Hsvc.
  - destruct (snd (registerService env [] svc categories)) as [e'|] eqn:E.
    + apply registerService_error in E as (-> & e & He & ->).
      simpl. intros [= <-]. right. exists e. tauto.
    + rewrite registerLoop_frame. simpl. intros Herr.
      destruct (IH Herr) as [(bad & ? & ? & ?)|(e & ? & ? & ?)];
        [left; exists bad|right; exists e]; tauto.
  - simpl. intros [= <-]. left. exists svc. tauto.
Qed.

Lemma registerLoop_stops env entries (err : string) :
  snd (registerLoop env [] entries) = Some err ->
  exists pre e post,
    entries = pre ++ e :: post /\ Forall (entryOK env) pre /\
    ~ entryOK env e /\
    fst (registerLoop env [] entries)
    = flat_map (fun e => activated env e.1 e.2) pre.
Proof.
  induction entries as [|[svc categories] rest IH]; [done|].
  rewrite registerLoop_cons.
  destruct (supportedServices !! svc) as [d|] eqn:Hsvc.
  - destruct (snd (registerService env [] svc categories)) as [e'|] eqn:E.
    + intros _. exists [], (svc, categories), rest.
      split; [done|]. split; [constructor|]. split.
      * intros [_ Hok]. simpl in Hok. congruence.
      * pose proof E as E'.
        apply registerService_error in E' as (-> & e & He & _).
        simpl. unfold activated. by rewrite registerService_apps, He.
    + rewrite registerLoop_frame. simpl. intros Herr.
      destruct (IH Herr) as (pre & e & post & -> & Hpre & He & Hfst).
      exists ((svc, categories) :: pre), e, post.
      split; [done|]. split; [|split; [done|]].
      * constructor; [|done]. split; [by eexists|done].
      * simpl. by rewrite Hfst.
  - intros _. exists [], (svc, categories), rest.
    split; [done|]. split; [constructor|]. split; [|done].
    intros [[d Hd] _]. simpl in Hd. congruence.
Qed.

Lemma entryOK_env env env' (e : string * list string) :
  NewAppPlatformTool env = NewAppPlatformTool env' ->
  entryOK env e -> entryOK env' e.
Proof.
  intros Heq [Hsup Hok]. split; [done|].
  by rewrite <- (registerService_env env env' _ _ _ Heq).
Qed.

Lemma filtersOf_env env env' (tokens : list string) :
  EnvOK env -> EnvOK env' -> filtersOf env tokens = filtersOf env' tokens.
Proof.
  intros Hok Hok'. destruct tokens as [|tok rest]; [|done].
  destruct (filtersOf_default env serviceNames Hok) as [-> _]; [done|].
  by destruct (filtersOf_default env' serviceNames Hok') as [-> _].
Qed.

End DriverErrors.

(** X11. [Register] knows two errors and no other. It returns either [nil],
    or the unknown-service error of a service that has an entry in the filter
    map and is not in the catalog, or the construction error of the apps
    tool wrapped as "failed to register apps tools: failed to create apps
    tool: ..." when apps has an entry; the registration of the common tools
    never fails. *)
Theorem register_error_kinds env s (tokens : list string) (err : string) :
  EnvOK env -> snd (Register env s tokens) = Some err ->
  (exists bad, is_Some (filtersOf env tokens !! bad) /\
               supportedServices !! bad = None /\
               err = unsupportedError env bad) \/
  (exists e, NewAppPlatformTool env = Some e /\
             is_Some (filtersOf env tokens !! "apps") /\
             err = appsError e).
Proof.
  intros Hok. rewrite Register_unfold.
  destruct (snd (registerLoop env [] (entriesOf env tokens))) as [err'|] eqn:E;
    [|done].
  simpl. intros [= ->].
  assert (Hkey : forall k, In k (entriesOf env tokens).*1 ->
                           is_Some (filtersOf env tokens !! k)).
  { intros k Hk. apply list_elem_of_In, list_elem_of_fmap in Hk
      as ([svc cs] & -> & He).
    apply list_elem_of_In, (entriesOf_lookup env Hok) in He. by eexists. }
  destruct (registerLoop_error_kinds _ _ _ E)
    as [(bad & Hbad & ? & ?)|(e & ? & Happs & ?)].
  - left. exists bad. split; [by apply Hkey|done].
  - right. exists e. split; [done|]. split; [by apply Hkey|done].
Qed.

Lemma register_error_kinds_witness :
  (exists bad, is_Some (filtersOf env0 ["doks"; "k8s"] !! bad) /\
               supportedServices !! bad = None /\
               unsupportedError env0 "k8s" = unsupportedError env0 bad) \/
  (exists e, NewAppPlatformTool env0 = Some e /\
             is_Some (filtersOf env0 ["doks"; "k8s"] !! "apps") /\
             unsupportedError env0 "k8s" = appsError e).
Proof.
  apply (register_error_kinds env0 [] ["doks"; "k8s"] _ env0_ok).
  vm_compute. reflexivity.
Defined.

(** X12. An error does not undo what was registered before it. When
    [Register] returns an error, the entries of the filter map visited before
    the failing one were all registered and their tool sets stay on the
    server, behind what was there before; the failing entry, the entries
    after it and the common tools add nothing. *)
Theorem register_keeps_partial env s (tokens : list string) (err : string) :
  snd (Register env s tokens) = Some err ->
  exists pre e post,
    entriesOf env tokens = pre ++ e :: post /\
    Forall (entryOK env) pre /\ ~ entryOK env e /\
    fst (Register env s tokens)
    = s ++ flat_map (fun e => activated env e.1 e.2) pre.
Proof.
  rewrite Register_unfold.
  destruct (snd (registerLoop env [] (entriesOf env tokens))) as [err'|] eqn:E;
    [|done].
  intros _. destruct (registerLoop_stops _ _ _ E)
    as (pre & e & post & Hsplit & Hpre & He & Hfst).
  exists pre, e, post. simpl. by rewrite Hfst.
Qed.

Lemma register_keeps_partial_witness :
  exists pre e post,
    entriesOf env0 ["droplets:sizes"; "k8s"] = pre ++ e :: post /\
    Forall (entryOK env0) pre /\ ~ entryOK env0 e /\
    fst (Register env0 [DoksTool] ["droplets:sizes"; "k8s"])
    = [DoksTool] ++ flat_map (fun e => activated env0 e.1 e.2) pre.
Proof.
  apply (register_keeps_partial env0 [DoksTool] ["droplets:sizes"; "k8s"]
           (unsupportedError env0 "k8s")).
  vm_compute. reflexivity.
Defined.

(** X13. With at least one token, [Register] adds nothing that was not asked
    for: every tool set it registers is the region tool set or belongs to a
    catalog service that some token names, without separator or with a
    category that is not empty. *)
Theorem register_only_requested env (tokens : list string) (t : ToolSet) :
  EnvOK env -> tokens <> [] -> In t (registered env tokens) ->
  t = RegionTools \/
  exists tok, In tok tokens /\ tokenCategory tok <> Some "" /\
              owner t = Some (tokenService tok) /\
              supported (tokenService tok).
Proof.
  intros Hok Hne Ht. unfold registered in Ht. rewrite Register_unfold in Ht.
  assert (Hloop : t = RegionTools \/
            In t (fst (registerLoop env [] (entriesOf env tokens)))).
  { destruct (snd (registerLoop env [] (entriesOf env tokens)));
      [by right|].
    simpl in Ht. apply in_app_or in Ht as [Ht|[<-|[]]]; [by right|by left]. }
  destruct Hloop as [->|Hloop]; [by left|right].
  apply registerLoop_calls_in in Hloop as ([svc cs] & He & Hact).
  apply activated_owner in Hact as [Hown Hsup]. simpl in Hown, Hsup.
  apply (entriesOf_lookup env Hok) in He. unfold filtersOf in He.
  rewrite effectiveTokens_nonempty in He by done.
  destruct (proj1 (parse_key_iff tokens svc)) as (tok & Hin & <- & Hc);
    [by eexists|].
  exists tok. split; [done|]. split; [done|]. split; [done|].
  by apply supported_iff.
Qed.

Lemma register_only_requested_witness :
  SizesTool = RegionTools \/
  exists tok, In tok ["droplets:sizes"; "spaces:"] /\
              tokenCategory tok <> Some "" /\
              owner SizesTool = Some (tokenService tok) /\
              supported (tokenService tok).
Proof.
  apply (register_only_requested env0 ["droplets:sizes"; "spaces:"] SizesTool
           env0_ok); [discriminate|].
  vm_compute. tauto.
Defined.

(** X14. The order in which the maps are ranged over decides neither whether
    [Register] succeeds nor what a successful call registers: two runs on
    the same tokens, with the same outcome of the apps constructor, both
    return [nil] or both fail, and when they return [nil] they leave the
    same tool sets on the server, up to their order. *)
Theorem register_order_independent env env' s (tokens : list string) :
  EnvOK env -> EnvOK env' ->
  NewAppPlatformTool env = NewAppPlatformTool env' ->
  (snd (Register env s tokens) = None
   <-> snd (Register env' s tokens) = None) /\
  (snd (Register env s tokens) = None ->
   fst (Register env s tokens) ≡ₚ fst (Register env' s tokens)).
Proof.
  intros Hok Hok' Hctor.
  pose proof (filtersOf_env env env' tokens Hok Hok') as Hfilters.
  assert (Hnil : forall e1 e2, EnvOK e1 -> EnvOK e2 ->
            NewAppPlatformTool e1 = NewAppPlatformTool e2 ->
            filtersOf e1 tokens = filtersOf e2 tokens ->
            snd (Register e1 s tokens) = None ->
            snd (Register e2 s tokens) = None).
  { intros e1 e2 H1 H2 Hc Hf Hnil.
    rewrite Register_unfold in Hnil. rewrite Register_unfold.
    destruct (snd (registerLoop e1 [] (entriesOf e1 tokens))) eqn:E1;
      [done|].
    rewrite registerLoop_nil_iff, (entriesOf_Forall e1 H1) in E1.
    assert (E2 : snd (registerLoop e2 [] (entriesOf e2 tokens)) = None).
    { rewrite registerLoop_nil_iff, (entriesOf_Forall e2 H2).
      intros svc cs Hl. apply (entryOK_env e1 e2); [done|].
      apply E1. by rewrite Hf. }
    by rewrite E2. }
  split; [split; [by apply Hnil|by apply Hnil]|].
  intros Hnone.
  rewrite (Register_nil_shape env s tokens Hnone).
  rewrite (Register_nil_shape env' s tokens
             (Hnil env env' Hok Hok' Hctor Hfilters Hnone)).
  apply Permutation_app; [done|]. apply Permutation_app; [|done].
  rewrite (flat_map_ext (fun e => activated env e.1 e.2)
             (fun e => activated env' e.1 e.2)).
  - apply Permutation_flat_map.
    rewrite (entriesOf_perm env Hok), (entriesOf_perm env' Hok').
    by rewrite Hfilters.
  - intros [svc cs]. unfold activated.
    by rewrite (registerService_env env env' _ _ _ Hctor).
Qed.

Lemma register_order_independent_witness :
  fst (Register env0 [] ["doks"; "spaces:all"])
  ≡ₚ fst (Register (mkEnv None serviceNames
                      (fun m => reverse (map_to_list m)) serviceNames)
            [] ["doks"; "spaces:all"]).
Proof.
  apply (register_order_independent env0
           (mkEnv None serviceNames (fun m => reverse (map_to_list m))
              serviceNames) [] ["doks"; "spaces:all"] env0_ok).
  - split; [done|]. split; [|done]. intros m. simpl.
    apply reverse_Permutation.
  - reflexivity.
  - vm_compute. reflexivity.
Defined.

(** X15. With at least one token, [Register] returns [nil] exactly when
    every token that names a service without separator or with a category
    that is not empty names a catalog service, and, if one of them names
    apps, the apps tool can be constructed. Tokens with an empty category are
    not looked at. *)
Theorem register_succeeds_iff env s (tokens : list string) :
  EnvOK env -> tokens <> [] ->
  (snd (Register env s tokens) = None
   <-> (forall tok, In tok tokens -> tokenCategory tok <> Some "" ->
                    supported (tokenService tok)) /\
       ((exists tok, In tok tokens /\ tokenService tok = "apps" /\
                     tokenCategory tok <> Some "") ->
        NewAppPlatformTool env = None)).
Proof.
  intros Hok Hne.
  assert (Hiff : snd (Register env s tokens) = None
                 <-> Forall (entryOK env) (entriesOf env tokens)).
  { rewrite Register_unfold, <- registerLoop_nil_iff.
    by destruct (snd (registerLoop env [] (entriesOf env tokens))). }
  rewrite Hiff, (entriesOf_Forall env Hok). unfold filtersOf.
  rewrite effectiveTokens_nonempty by done. unfold entryOK. simpl. split.
  - intros Hall. split.
    + intros tok Hin Hc.
      destruct (proj2 (parse_key_iff tokens (tokenService tok))) as [cs Hcs];
        [by exists tok|].
      by destruct (Hall _ _ Hcs).
    + intros (tok & Hin & Hk & Hc).
      destruct (proj2 (parse_key_iff tokens "apps")) as [cs Hcs];
        [by exists tok|].
      destruct (Hall _ _ Hcs) as [_ Hnil].
      by apply (registerService_nil_iff env [] "apps" cs).
  - intros [Hsup Happs] svc cs Hcs.
    destruct (proj1 (parse_key_iff tokens svc)) as (tok & Hin & <- & Hc);
      [by eexists|].
    split; [by apply Hsup|].
    apply registerService_ok. intros Heq. apply Happs. by exists tok.
Qed.

Lemma register_succeeds_iff_witness :
  snd (Register envFail [] ["doks"; "apps:"; "bogus:"]) = None.
Proof.
  apply (register_succeeds_iff envFail [] ["doks"; "apps:"; "bogus:"]).
  - split; [done|]. split; [|done]. by intros m.
  - discriminate.
  - split.
    + intros tok [<-|[<-|[<-|[]]]] Hc;
        [by eexists; vm_compute| |]; exfalso; apply Hc; reflexivity.
    + intros (tok & [<-|[<-|[<-|[]]]] & Hk & Hc);
        [discriminate Hk| |]; exfalso; apply Hc; reflexivity.
Defined.

(** ** The tool handlers *)

Section HandlerFacts.

Import Handlers.

Context {Value : Type}.
Variable Marshal : Value -> string + string.

Lemma getAccountInformation_cases (provider : Provider Value) :
  getAccountInformation Marshal provider
  = match provider with
    | None => None
    | Some (_, Some e) =>
        Some (None, Some ("failed to get DigitalOcean client: " +:+ e))
    | Some (None, None) => None
    | Some (Some c, None) =>
        match Account_Get c with
        | None => None
        | Some (inr e) =>
            Some (Some (NewToolResultErrorFromErr "api error" e), None)
        | Some (inl v) =>
            match Marshal v with
            | inr e => Some (None, Some ("error marshalling account: " +:+ e))
            | inl data => Some (Some (NewToolResultText data), None)
            end
        end
    end.
Proof.
  unfold getAccountInformation, CompactJSON.
  destruct provider as [[[c|] [e|]]|]; try done.
  destruct (Account_Get c) as [[v|e]|]; try done. by destruct (Marshal v).
Qed.

Lemma getBalance_cases (provider : Provider Value) :
  getBalance Marshal provider
  = match provider with
    | None => None
    | Some (_, Some e) =>
        Some (None, Some ("failed to get DigitalOcean client: " +:+ e))
    | Some (None, None) => None
    | Some (Some c, None) =>
        match Balance_Get c with
        | None => None
        | Some (inr e) =>
            Some (Some (NewToolResultErrorFromErr "api error" e), None)
        | Some (inl v) =>
            match Marshal v with
            | inr e => Some (None, Some ("marshal error: " +:+ e))
            | inl data => Some (Some (NewToolResultText data), None)
            end
        end
    end.
Proof.
  unfold getBalance, CompactJSON.
  destruct provider as [[[c|] [e|]]|]; try done.
  destruct (Balance_Get c) as [[v|e]|]; try done. by destruct (Marshal v).
Qed.

(** A handler of the common shape meets the common specification. *)
Lemma HandlerSpec_cases (get : Client Value -> option (Value + string))
    (prefix : string)
    (h : Provider Value -> option (option CallToolResult * error)) :
  (forall provider,
     h provider
     = match provider with
       | None => None
       | Some (_, Some e) =>
           Some (None, Some ("failed to get DigitalOcean client: " +:+ e))
       | Some (None, None) => None
       | Some (Some c, None) =>
           match get c with
           | None => None
           | Some (inr e) =>
               Some (Some (NewToolResultErrorFromErr "api error" e), None)
           | Some (inl v) =>
               match Marshal v with
               | inr e => Some (None, Some (prefix +:+ e))
               | inl data => Some (Some (NewToolResultText data), None)
               end
           end
       end) ->
  HandlerSpec Marshal get prefix h.
Proof.
  intros Hcases provider. rewrite Hcases.
  destruct provider as [[[c|] [e|]]|].
  - (* a client and an error *)
    split; [split; [done|intros [?|[?|(? & ? & ?)]]; done]|].
    split; [intros r [= <-]; simpl; split;
              [split; [by eexists|done]
              |split; [intros _; left; by eexists _, _|by eexists]]|].
    split; [by intros ? ? [= <- <-]|].
    split; [by intros ? ? [=]|]. split; by intros ? ? ? [=].
  - (* a client, no error *)
    destruct (get c) as [[v|e]|] eqn:Hget; [destruct (Marshal v) eqn:Hm| |].
    + split; [split; [done|intros [?|[?|(? & [= <-] & ?)]]; congruence]|].
      split; [intros r [= <-]; simpl; split;
                [split; [done|by intros [? ?]]
                |split; [by intros [? ?]
                        |intros [(? & ? & [=])|(? & ? & ? & [= <-] & ? & ?)];
                         congruence]]|].
      split; [by intros ? ? [=]|].
      split; [intros ? ? [= <-]; congruence|].
      split; intros ? ? ? [= <-]; congruence.
    + split; [split; [done|intros [?|[?|(? & [= <-] & ?)]]; congruence]|].
      split; [intros r [= <-]; simpl; split;
                [split; [by eexists|done]
                |split; [intros _; right; by eexists _, _, _|by eexists]]|].
      split; [by intros ? ? [=]|].
      split; [intros ? ? [= <-]; congruence|].
      split; intros ? ? ? [= <-]; congruence.
    + split; [split; [done|intros [?|[?|(? & [= <-] & ?)]]; congruence]|].
      split; [intros r [= <-]; simpl; split;
                [split; [done|by intros [? ?]]
                |split; [by intros [? ?]
                        |intros [(? & ? & [=])|(? & ? & ? & [= <-] & ? & ?)];
                         congruence]]|].
      split; [by intros ? ? [=]|].
      split; [intros ? ? [= <-]; congruence|].
      split; intros ? ? ? [= <-]; congruence.
    + split; [split; [intros _; right; right; by exists c|done]|].
      split; [by intros r [=]|].
      split; [by intros ? ? [=]|].
      split; [intros ? ? [= <-]; congruence|].
      split; intros ? ? ? [= <-]; congruence.
  - (* no client, an error *)
    split; [split; [done|intros [?|[?|(? & ? & ?)]]; done]|].
    split; [intros r [= <-]; simpl; split;
              [split; [by eexists|done]
              |split; [intros _; left; by eexists _, _|by eexists]]|].
    split; [by intros ? ? [= <- <-]|].
    split; [by intros ? ? [=]|]. split; by intros ? ? ? [=].
  - (* neither a client nor an error *)
    split; [split; [intros _; right; by left|done]|].
    split; [by intros r [=]|].
    split; [by intros ? ? [=]|].
    split; [by intros ? ? [=]|]. split; by intros ? ? ? [=].
  - (* no provider *)
    split; [split; [intros _; by left|done]|].
    split; [by intros r [=]|].
    split; [by intros ? ? [=]|].
    split; [by intros ? ? [=]|]. split; by intros ? ? ? [=].
Qed.

End HandlerFacts.

(** X16. The handlers [getAccountInformation] and [getBalance] panic in
    three cases and no other: the client function cannot be called, it
    returns neither a client nor an error, or the service of the client is
    nil. Whenever a handler returns, it returns a result or an error, never
    both and never neither. The error is returned exactly when the client
    function returned an error (the client is then not used) or the value
    received from the API cannot be marshalled; a failure of the API call
    itself is not an error of the handler: it is handed back inside the
    result. A successful result carries the marshalled text unchanged. *)
Theorem handlers_result_or_error {Value : Type}
    (Marshal : Value -> string + string) :
  Handlers.HandlerSpec Marshal Handlers.Account_Get
    "error marshalling account: " (Handlers.getAccountInformation Marshal) /\
  Handlers.HandlerSpec Marshal Handlers.Balance_Get
    "marshal error: " (Handlers.getBalance Marshal).
Proof.
  split.
  - apply HandlerSpec_cases. apply getAccountInformation_cases.
  - apply HandlerSpec_cases. apply getBalance_cases.
Qed.

Lemma handlers_result_or_error_witness :
  Handlers.getAccountInformation (fun n : nat => inl "{}")
    (Some (Some (Handlers.mkClient (Some (inr "503")) (Some (inl 7))), None))
  = Some (Some (Handlers.NewToolResultErrorFromErr "api error" "503"), None) /\
  Handlers.getBalance (fun n : nat => inl "{}")
    (Some (Some (Handlers.mkClient (Some (inr "503")) (Some (inl 7))), None))
  = Some (Some (Handlers.NewToolResultText "{}"), None) /\
  Handlers.getBalance (fun n : nat => inl "{}") (Some (None, None)) = None.
Proof.
  destruct (handlers_result_or_error (fun n : nat => inl "{}")) as [Ha Hb].
  destruct (Ha (Some (Some (Handlers.mkClient (Some (inr "503"))
                              (Some (inl 7))), None)))
    as (_ & _ & _ & Hapi & _).
  destruct (Hb (Some (Some (Handlers.mkClient (Some (inr "503"))
                              (Some (inl 7))), None)))
    as (_ & _ & _ & _ & _ & Htext).
  destruct (Hb (Some (None, None))) as ([_ Hpanic] & _).
  split; [|split].
  - apply (Hapi (Handlers.mkClient (Some (inr "503")) (Some (inl 7))) "503");
      reflexivity.
  - apply (Htext (Handlers.mkClient (Some (inr "503")) (Some (inl 7))) 7 "{}");
      reflexivity.
  - apply Hpanic. right. by left.
Defined.
